(** * InterviewPractice: the streaming session engine

    A shallow embedding of [src/components/InterviewPractice.tsx]: the media
    codec helpers ([decode], [encode], [decodeAudioData]), the inbound
    message handler ([onmessage]), the capture callback ([onaudioprocess])
    and the session lifecycle ([startSession], [stopSession]).

    Conventions.
    - Time on the output audio clock is a rational number of seconds
      ([Q]); JavaScript's doubles are idealised to exact arithmetic.
    - A JavaScript "binary string" (every code unit below 256) and a
      base64 string are Rocq [string]s; a [Uint8Array] is a [list Z] of
      values in [0, 256); an [Int16Array] is a [list Z] of values in
      [-32768, 32768). Typed arrays that share a buffer are little-endian.
    - An optional field of a message is an [option]; [None] is
      JavaScript's [undefined].
    - Every callback runs to completion before the next one starts (the
      browser's event loop); the only suspension points of [startSession]
      are its two [await]s, which are separate events of the model. The
      [await] of [onmessage] (line 174) is on a promise that is already
      settled; the handler resumes before any other callback runs, and is
      one step of the model. *)

From Stdlib Require Import ZArith QArith Qminmax Lqa Lia String Ascii List Bool.
From stdpp Require Import base list strings.
Import ListNotations.

Open Scope Z_scope.

(** ** JavaScript values *)

Inductive JsError :=
| TypeError              (* reading a property of undefined *)
| RangeError             (* Int16Array over a buffer of odd byte length *)
| InvalidCharacterError  (* atob on a string that is not base64 *)
| NotSupportedError      (* createBuffer with zero frames *)
| InvalidStateError.     (* close() on a closed AudioContext *)

(** The result of a computation that can throw. *)
Inductive Result (A : Type) :=
| Ok (a : A)
| Throw (e : JsError).
Arguments Ok {A} a.
Arguments Throw {A} e.

#[global] Instance Result_ret : MRet Result := fun A a => Ok a.

#[global] Instance Result_bind : MBind Result := fun A B k r =>
  match r with
  | Ok a => k a
  | Throw e => Throw e
  end.

(** Truthiness of a string: the empty string is falsy. *)
Definition truthy_string (s : string) : bool :=
  match s with
  | EmptyString => false
  | String _ _ => true
  end.

(** Truthiness of an optional boolean. *)
Definition truthy_opt_bool (o : option bool) : bool :=
  match o with
  | Some b => b
  | None => false
  end.

(** [s += v] where [v] may be undefined: the undefined value is converted
    to the string "undefined". *)
Definition js_to_string (o : option string) : string :=
  match o with
  | Some s => s
  | None => "undefined"
  end.

(** [Math.max] on two finite numbers. *)
Definition Math_max (a b : Q) : Q :=
  if Qle_bool a b then b else a.

(** ** Base64: the browser's [btoa] and [atob] *)

Definition b64_alphabet : string :=
  "ABCDEFGHIJKLMNOPQRSTUVWXYZabcdefghijklmnopqrstuvwxyz0123456789+/".

Definition pad_char : ascii := "="%char.

Definition b64_char (i : Z) : ascii :=
  match String.get (Z.to_nat i) b64_alphabet with
  | Some c => c
  | None => pad_char
  end.

Fixpoint index_from (c : ascii) (s : string) (i : Z) : option Z :=
  match s with
  | EmptyString => None
  | String d rest => if Ascii.eqb c d then Some i else index_from c rest (i + 1)
  end.

Definition b64_index (c : ascii) : option Z := index_from c b64_alphabet 0.

Definition charCode (c : ascii) : Z := Z.of_N (N_of_ascii c).

(** [String.fromCharCode(b)] for a byte [b]. *)
Definition fromCharCode (b : Z) : ascii := ascii_of_N (Z.to_N (b mod 256)).

(** Three bytes give four sextets; one or two trailing bytes are padded. *)
Fixpoint btoa_bytes (bs : list Z) : list ascii :=
  match bs with
  | [] => []
  | [a] =>
      [b64_char (Z.shiftr a 2);
       b64_char (Z.shiftl (Z.land a 3) 4);
       pad_char; pad_char]
  | [a; b] =>
      [b64_char (Z.shiftr a 2);
       b64_char (Z.lor (Z.shiftl (Z.land a 3) 4) (Z.shiftr b 4));
       b64_char (Z.shiftl (Z.land b 15) 2);
       pad_char]
  | a :: b :: c :: rest =>
      b64_char (Z.shiftr a 2)
      :: b64_char (Z.lor (Z.shiftl (Z.land a 3) 4) (Z.shiftr b 4))
      :: b64_char (Z.lor (Z.shiftl (Z.land b 15) 2) (Z.shiftr c 6))
      :: b64_char (Z.land c 63)
      :: btoa_bytes rest
  end.

Definition btoa (binary : string) : string :=
  string_of_list_ascii (btoa_bytes (map charCode (list_ascii_of_string binary))).

(** ASCII whitespace: tab, line feed, form feed, carriage return, space. *)
Definition is_ascii_whitespace (c : ascii) : bool :=
  let n := charCode c in
  (n =? 9) || (n =? 10) || (n =? 12) || (n =? 13) || (n =? 32).

(** If the data ends with one or two padding characters, remove them. *)
Fixpoint strip_padding (cs : list ascii) : list ascii :=
  match cs with
  | [] => []
  | [p] => if Ascii.eqb p pad_char then [] else [p]
  | [p; q] =>
      if Ascii.eqb q pad_char
      then (if Ascii.eqb p pad_char then [] else [p])
      else [p; q]
  | c :: (_ :: _ :: _) as rest => c :: strip_padding rest
  end.

Fixpoint sextets_of (cs : list ascii) : option (list Z) :=
  match cs with
  | [] => Some []
  | c :: rest =>
      match b64_index c, sextets_of rest with
      | Some i, Some tl => Some (i :: tl)
      | _, _ => None
      end
  end.

(** Four sextets give three bytes; two trailing sextets give one byte and
    three give two (the surplus bits are dropped). *)
Fixpoint bytes_of_sextets (ss : list Z) : list Z :=
  match ss with
  | s0 :: s1 :: s2 :: s3 :: rest =>
      Z.lor (Z.shiftl s0 2) (Z.shiftr s1 4)
      :: Z.lor (Z.shiftl (Z.land s1 15) 4) (Z.shiftr s2 2)
      :: Z.lor (Z.shiftl (Z.land s2 3) 6) s3
      :: bytes_of_sextets rest
  | [s0; s1; s2] =>
      [Z.lor (Z.shiftl s0 2) (Z.shiftr s1 4);
       Z.lor (Z.shiftl (Z.land s1 15) 4) (Z.shiftr s2 2)]
  | [s0; s1] => [Z.lor (Z.shiftl s0 2) (Z.shiftr s1 4)]
  | _ => []
  end.

(** [atob]: the forgiving base64 decoding of the HTML standard. [Throw]
    is the [InvalidCharacterError] DOMException. *)
Definition atob (data : string) : Result string :=
  let cs := filter (fun c => negb (is_ascii_whitespace c)) (list_ascii_of_string data) in
  let cs := if (Z.of_nat (length cs) mod 4 =? 0) then strip_padding cs else cs in
  if (Z.of_nat (length cs) mod 4 =? 1) then Throw InvalidCharacterError
  else match sextets_of cs with
       | None => Throw InvalidCharacterError
       | Some ss => Ok (string_of_list_ascii (map fromCharCode (bytes_of_sextets ss)))
       end.

(** ** Codec helpers of the module (lines 10-46) *)

(** [decode]: [atob], then one byte per character of the binary string. *)
Definition decode (base64 : string) : Result (list Z) :=
  binaryString ← atob base64;
  Ok (map charCode (list_ascii_of_string binaryString)).

(** [encode]: the loop appends [String.fromCharCode(bytes[i])] to
    [binary] for each index, then [btoa]. *)
Definition encode (bytes : list Z) : string :=
  let binary :=
    fold_left (fun acc b => (acc +:+ String (fromCharCode b) EmptyString)%string)
              bytes EmptyString in
  btoa binary.

(** A channel of an [AudioBuffer]: its samples, and the sample rate. *)
Record AudioBuffer := {
  sampleRate : Z;
  channelData : list Q
}.

(** [buffer.duration]: frames over sample rate, in seconds. *)
Definition duration (b : AudioBuffer) : Q :=
  (inject_Z (Z.of_nat (length (channelData b))) / inject_Z (sampleRate b))%Q.

(** [new Int16Array(data.buffer)]: little-endian pairs of bytes read as
    signed 16-bit integers; a buffer of odd length is a [RangeError]. *)
Definition int16_of_pair (lo hi : Z) : Z :=
  let u := lo + 256 * hi in
  if u <? 32768 then u else u - 65536.

Fixpoint int16_pairs (bytes : list Z) : list Z :=
  match bytes with
  | lo :: hi :: rest => int16_of_pair lo hi :: int16_pairs rest
  | _ => []
  end.

Definition Int16Array_of_buffer (bytes : list Z) : Result (list Z) :=
  if Z.odd (Z.of_nat (length bytes)) then Throw RangeError
  else Ok (int16_pairs bytes).

(** [ctx.createBuffer(numChannels, frameCount, sampleRate)] refuses a
    buffer of zero frames. *)
Definition createBuffer (frameCount : nat) (rate : Z) : Result unit :=
  match frameCount with
  | O => Throw NotSupportedError
  | S _ => Ok tt
  end.

(** [decodeAudioData(data, ctx, sampleRate, 1)]: with one channel,
    [channelData[i] = dataInt16[i] / 32768.0]. *)
Definition decodeAudioData (data : list Z) (rate : Z) : Result AudioBuffer :=
  dataInt16 ← Int16Array_of_buffer data;
  _ ← createBuffer (length dataInt16) rate;
  Ok {| sampleRate := rate;
        channelData := map (fun v => (inject_Z v / 32768)%Q) dataInt16 |}.

(** ** Audio capture: float samples to 16-bit PCM (lines 121-129) *)

(** A sample of the input buffer: a finite value, or one of NaN and the
    two infinities. *)
Inductive Float :=
| Finite (q : Q)
| NonFinite.

(** [x * 32768]: exact on finite samples (a power of two). *)
Definition times_32768 (x : Float) : Float :=
  match x with
  | Finite q => Finite (q * 32768)
  | NonFinite => NonFinite
  end.

(** Truncation toward zero. *)
Definition trunc (q : Q) : Z := Z.quot (Qnum q) (Z.pos (Qden q)).

(** Reduction of an integer modulo 2^16 into the signed range. *)
Definition wrap16 (n : Z) : Z :=
  let m := n mod 65536 in
  if m <? 32768 then m else m - 65536.

(** The conversion a store into an [Int16Array] applies (ToInt16): NaN
    and the infinities become 0, a finite value is truncated and wrapped. *)
Definition ToInt16 (x : Float) : Z :=
  match x with
  | Finite q => wrap16 (trunc q)
  | NonFinite => 0
  end.

(** [new Uint8Array(int16.buffer)]: two bytes per sample, low byte first. *)
Definition bytes_of_int16 (v : Z) : list Z :=
  [Z.land v 255; Z.land (Z.shiftr v 8) 255].

Definition Uint8Array_of_int16 (int16 : list Z) : list Z :=
  flat_map bytes_of_int16 int16.

(** The argument of [sendRealtimeInput({ media })]. *)
Record Media := {
  data : string;
  mimeType : string
}.

(** The body of [onaudioprocess] up to the blob (lines 122-129). *)
Definition pcmBlob (inputData : list Float) : Media :=
  let int16 := map (fun x => ToInt16 (times_32768 x)) inputData in
  {| data := encode (Uint8Array_of_int16 int16);
     mimeType := "audio/pcm;rate=16000" |}.

(** ** Inbound events

    [LiveServerMessage] is declared by the SDK the module imports; every
    field of it is optional. Only the fields [onmessage] reads are kept. *)
Module Live.
Record Transcription := { text : option string }.
Record Blob := { data : option string }.
Record Part := { inlineData : option Blob }.
Record Content := { parts : option (list Part) }.
Record ServerContent := {
  modelTurn : option Content;
  turnComplete : option bool;
  interrupted : option bool;
  inputTranscription : option Transcription;
  outputTranscription : option Transcription
}.
Record ServerMessage := { serverContent : option ServerContent }.
End Live.

(** [message.serverContent?.f] for a field [f] of the server content. *)
Definition content_field {A} (f : Live.ServerContent -> option A)
    (message : Live.ServerMessage) : option A :=
  match Live.serverContent message with
  | Some sc => f sc
  | None => None
  end.

(** Line 171: [message.serverContent?.modelTurn?.parts[0]?.inlineData?.data].
    The index into [parts] is not guarded: a model turn without parts makes
    [parts[0]] a property read on undefined. *)
Definition audioData_of (message : Live.ServerMessage) : Result (option string) :=
  match content_field Live.modelTurn message with
  | None => Ok None
  | Some turn =>
      match Live.parts turn with
      | None => Throw TypeError
      | Some [] => Ok None
      | Some (part :: _) =>
          match Live.inlineData part with
          | None => Ok None
          | Some blob => Ok (Live.data blob)
          end
      end
  end.

(** ** Transcript entries and the component's state *)

Inductive Role := user | assistant.

(** [PracticeTranscription], as the module builds it. *)
Record PracticeTranscription := {
  role : Role;
  text : string;
  timestamp : Z
}.

(** The two arrow functions handed to [setTranscriptions] at lines 164 and
    165. Each one closes over the variables [currentInText] and
    [currentOutText] of the [startSession] call that created it (its
    attempt), and reads them when it is called, not when it is created. *)
Inductive Closure :=
| UserEntry (attempt : nat)        (* prev => [...prev, {role: 'user', text: currentInText, ...}] *)
| AssistantEntry (attempt : nat).  (* prev => [...prev, {role: 'assistant', text: currentOutText, ...}] *)

(** An argument of [setTranscriptions] that React has queued: a value, or
    an updater function still to be called. *)
Inductive Update :=
| Value (v : list PracticeTranscription)
| Updater (f : Closure).

(** The audio contexts are named after the attempt that created them. *)
Inductive AudioContext :=
| audioCtxIn (attempt : nat)
| audioCtxOut (attempt : nat).

(** Calls into the browser and the SDK, in the order they are made. *)
Inductive Effect :=
| GetUserMedia (attempt : nat)
| Connect (attempt : nat)
| SetInterval (attempt : nat)
| SendRealtimeInput (attempt : nat) (media : Media)
| SourceStart (attempt : nat) (when : Q) (buffer : AudioBuffer)
| SessionClose (attempt : nat)
| TracksStop (attempt : nat)
| ClearInterval (attempt : nat)
| ContextClose (ctx : AudioContext) (fulfilled : bool)
| ConsoleError
| Alert
| UnhandledRejection (e : JsError).

(** The component: React state, refs, and the trace of effects. The DOM
    refs ([videoRef], [canvasRef], [transcriptRef]) are left out. A ref
    holds [null] ([None]) or an object or timer id, named here after the
    attempt that created it; in a test such as [if (streamRef.current)]
    every [Some] is truthy (objects are, and timer ids are positive).
    [isActive] and [isConnecting] are only ever set to constants, so the
    moment React applies them does not change their value; they are
    updated at the call. *)
Record Component := {
  isActive : bool;
  isConnecting : bool;
  transcriptions : list PracticeTranscription;  (* as of the last render *)
  updateQueue : list Update;                    (* queued since the last render *)
  sessionRef : option nat;
  streamRef : option nat;
  audioContextInRef : option nat;
  audioContextOutRef : option nat;
  nextStartTimeRef : Q;
  frameIntervalRef : option nat;
  effects : list Effect
}.

(** The promise returned by [ai.live.connect]; while it is pending, the
    media handed to [sessionPromise.then(...)] wait in order. *)
Inductive Promise :=
| NotCreated
| Pending (waiting : list Media)
| Resolved
| Rejected.

(** Where a call of [startSession] is suspended. *)
Inductive Pc :=
| AwaitDevices   (* line 88 *)
| AwaitSession   (* line 193 *)
| Finished.

(** The local variables of one call of [startSession]. *)
Record Attempt := {
  pc : Pc;
  currentOutText : string;
  currentInText : string;
  sessionPromise : Promise;
  opened : bool                   (* [onopen] has run *)
}.

(** *** Field updates *)

Definition set_flags (active connecting : bool) (c : Component) : Component :=
  {| isActive := active; isConnecting := connecting;
     transcriptions := transcriptions c; updateQueue := updateQueue c;
     sessionRef := sessionRef c; streamRef := streamRef c;
     audioContextInRef := audioContextInRef c;
     audioContextOutRef := audioContextOutRef c;
     nextStartTimeRef := nextStartTimeRef c;
     frameIntervalRef := frameIntervalRef c; effects := effects c |}.

Definition set_transcriptions (v : list PracticeTranscription) (q : list Update)
    (c : Component) : Component :=
  {| isActive := isActive c; isConnecting := isConnecting c;
     transcriptions := v; updateQueue := q;
     sessionRef := sessionRef c; streamRef := streamRef c;
     audioContextInRef := audioContextInRef c;
     audioContextOutRef := audioContextOutRef c;
     nextStartTimeRef := nextStartTimeRef c;
     frameIntervalRef := frameIntervalRef c; effects := effects c |}.

Definition set_sessionRef (r : option nat) (c : Component) : Component :=
  {| isActive := isActive c; isConnecting := isConnecting c;
     transcriptions := transcriptions c; updateQueue := updateQueue c;
     sessionRef := r; streamRef := streamRef c;
     audioContextInRef := audioContextInRef c;
     audioContextOutRef := audioContextOutRef c;
     nextStartTimeRef := nextStartTimeRef c;
     frameIntervalRef := frameIntervalRef c; effects := effects c |}.

Definition set_media_refs (stream ctxIn ctxOut : option nat) (c : Component) : Component :=
  {| isActive := isActive c; isConnecting := isConnecting c;
     transcriptions := transcriptions c; updateQueue := updateQueue c;
     sessionRef := sessionRef c; streamRef := stream;
     audioContextInRef := ctxIn; audioContextOutRef := ctxOut;
     nextStartTimeRef := nextStartTimeRef c;
     frameIntervalRef := frameIntervalRef c; effects := effects c |}.

Definition set_nextStartTime (t : Q) (c : Component) : Component :=
  {| isActive := isActive c; isConnecting := isConnecting c;
     transcriptions := transcriptions c; updateQueue := updateQueue c;
     sessionRef := sessionRef c; streamRef := streamRef c;
     audioContextInRef := audioContextInRef c;
     audioContextOutRef := audioContextOutRef c;
     nextStartTimeRef := t;
     frameIntervalRef := frameIntervalRef c; effects := effects c |}.

Definition set_frameInterval (r : option nat) (c : Component) : Component :=
  {| isActive := isActive c; isConnecting := isConnecting c;
     transcriptions := transcriptions c; updateQueue := updateQueue c;
     sessionRef := sessionRef c; streamRef := streamRef c;
     audioContextInRef := audioContextInRef c;
     audioContextOutRef := audioContextOutRef c;
     nextStartTimeRef := nextStartTimeRef c;
     frameIntervalRef := r; effects := effects c |}.

(** Record one more call into the environment. *)
Definition perform (e : Effect) (c : Component) : Component :=
  {| isActive := isActive c; isConnecting := isConnecting c;
     transcriptions := transcriptions c; updateQueue := updateQueue c;
     sessionRef := sessionRef c; streamRef := streamRef c;
     audioContextInRef := audioContextInRef c;
     audioContextOutRef := audioContextOutRef c;
     nextStartTimeRef := nextStartTimeRef c;
     frameIntervalRef := frameIntervalRef c; effects := effects c ++ [e] |}.

Definition set_texts (out inp : string) (att : Attempt) : Attempt :=
  {| pc := pc att; currentOutText := out; currentInText := inp;
     sessionPromise := sessionPromise att; opened := opened att |}.

Definition set_control (p : Pc) (pr : Promise) (o : bool) (att : Attempt) : Attempt :=
  {| pc := p; currentOutText := currentOutText att;
     currentInText := currentInText att; sessionPromise := pr; opened := o |}.

(** ** React's state setter

    [setTranscriptions(x)] does not change [transcriptions] at the call:
    React queues [x] and computes the next state during the next render,
    applying the queued updates in order; an updater function is called
    then. One exception is built into React: when the component has no
    update pending at all, React calls the updater at once against the
    current state and queues the result. Whether the component is in that
    state when a handler starts is an input of the handler ([idle]). *)

Record Tick := {
  currentTime : Q;   (* [audioCtxOut.currentTime], read at line 173 *)
  dateNow : Z;       (* [Date.now()] *)
  idle : bool        (* React has no update pending on the component *)
}.

(** Calling one of the two arrow functions reads the attempt's variable
    and the wall clock at the time of the call. *)
Definition call_closure (att : Attempt) (now : Z) (f : Closure)
    (prev : list PracticeTranscription) : list PracticeTranscription :=
  match f with
  | UserEntry _ =>
      prev ++ [{| role := user; text := currentInText att; timestamp := now |}]
  | AssistantEntry _ =>
      prev ++ [{| role := assistant; text := currentOutText att; timestamp := now |}]
  end.

Definition closure_attempt (f : Closure) : nat :=
  match f with
  | UserEntry a => a
  | AssistantEntry a => a
  end.

Definition queue_is_empty (c : Component) : bool :=
  match updateQueue c with
  | [] => true
  | _ :: _ => false
  end.

Definition enqueue (u : Update) (c : Component) : Component :=
  set_transcriptions (transcriptions c) (updateQueue c ++ [u]) c.

(** [setTranscriptions(f)] for an updater function [f] of attempt [att]. *)
Definition setTranscriptions (t : Tick) (att : Attempt) (f : Closure)
    (c : Component) : Component :=
  if idle t && queue_is_empty c
  then enqueue (Value (call_closure att (dateNow t) f (transcriptions c))) c
  else enqueue (Updater f) c.

(** A render: the queued updates are applied in order; an updater reads
    the variables of its attempt as they are now. The updaters of one
    render run back to back and read the same wall-clock time. *)
Definition apply_update (attempts : list Attempt) (now : Z)
    (state : list PracticeTranscription) (u : Update) : list PracticeTranscription :=
  match u with
  | Value v => v
  | Updater f =>
      match attempts !! closure_attempt f with
      | Some att => call_closure att now f state
      | None => state
      end
  end.

Definition render (attempts : list Attempt) (now : Z) (c : Component) : Component :=
  set_transcriptions
    (fold_left (apply_update attempts now) (updateQueue c) (transcriptions c)) [] c.

(** ** The inbound router: [onmessage] (lines 155-185) *)

(** How the promise of an [async] function settles, with the state the
    function left behind. *)
Inductive Completion (S : Type) :=
| Fulfilled (s : S)
| RejectedWith (e : JsError) (s : S).
Arguments Fulfilled {S} s.
Arguments RejectedWith {S} e s.

Definition final_state {S} (r : Completion S) : S :=
  match r with
  | Fulfilled s => s
  | RejectedWith _ s => s
  end.

(** Lines 157-161: the output fragment, else the input fragment. *)
Definition append_fragment (message : Live.ServerMessage) (att : Attempt) : Attempt :=
  match content_field Live.outputTranscription message with
  | Some tr =>
      set_texts (currentOutText att +:+ js_to_string (Live.text tr))
                (currentInText att) att
  | None =>
      match content_field Live.inputTranscription message with
      | Some tr =>
          set_texts (currentOutText att)
                    (currentInText att +:+ js_to_string (Live.text tr)) att
      | None => att
      end
  end.

(** Lines 163-168: at the end of a turn, one [setTranscriptions] call per
    non-empty buffer, then both buffers are emptied. *)
Definition flush_turn (a : nat) (t : Tick) (message : Live.ServerMessage)
    (s : Attempt * Component) : Attempt * Component :=
  let '(att, c) := s in
  if truthy_opt_bool (content_field Live.turnComplete message) then
    let c1 := if truthy_string (currentInText att)
              then setTranscriptions t att (UserEntry a) c else c in
    let c2 := if truthy_string (currentOutText att)
              then setTranscriptions t att (AssistantEntry a) c1 else c1 in
    (set_texts "" "" att, c2)
  else (att, c).

(** Lines 173-179: clamp the cursor to the clock, decode, start the source
    at the cursor, advance the cursor by the buffer's duration. *)
Definition schedule (a : nat) (t : Tick) (audioData : string)
    (c : Component) : Completion Component :=
  let c := set_nextStartTime (Math_max (nextStartTimeRef c) (currentTime t)) c in
  match (bytes ← decode audioData; decodeAudioData bytes 24000) with
  | Throw e => RejectedWith e c
  | Ok buffer =>
      let c := perform (SourceStart a (nextStartTimeRef c) buffer) c in
      Fulfilled (set_nextStartTime (nextStartTimeRef c + duration buffer)%Q c)
  end.

(** Lines 182-184. *)
Definition interrupt (message : Live.ServerMessage) (c : Component) : Component :=
  if truthy_opt_bool (content_field Live.interrupted message)
  then set_nextStartTime 0%Q c
  else c.

Definition onmessage (a : nat) (t : Tick) (message : Live.ServerMessage)
    (s : Attempt * Component) : Completion (Attempt * Component) :=
  let '(att, c) := flush_turn a t message (append_fragment message (fst s), snd s) in
  match audioData_of message with
  | Throw e => RejectedWith e (att, c)
  | Ok audioData =>
      let played :=
        match audioData with
        | Some d => if truthy_string d then schedule a t d c else Fulfilled c
        | None => Fulfilled c
        end in
      match played with
      | RejectedWith e c => RejectedWith e (att, c)
      | Fulfilled c => Fulfilled (att, interrupt message c)
      end
  end.

(** Messages handled one after the other; a rejected handler does not stop
    the delivery of later messages. *)
Definition deliver (a : nat) (s : Attempt * Component)
    (events : list (Tick * Live.ServerMessage)) : Attempt * Component :=
  fold_left (fun s ev => final_state (onmessage a (fst ev) (snd ev) s)) events s.

(** The start times handed to [source.start], oldest first. *)
Definition start_times (es : list Effect) : list Q :=
  flat_map (fun e => match e with SourceStart _ when _ => [when] | _ => [] end) es.

(** ** Teardown: [stopSession] (lines 71-80) *)

Definition ctx_eqb (x y : AudioContext) : bool :=
  match x, y with
  | audioCtxIn a, audioCtxIn b => Nat.eqb a b
  | audioCtxOut a, audioCtxOut b => Nat.eqb a b
  | _, _ => false
  end.

(** A context is closed once a [close()] on it has succeeded. *)
Definition context_closed (x : AudioContext) (es : list Effect) : bool :=
  existsb (fun e => match e with
                    | ContextClose y true => ctx_eqb x y
                    | _ => false
                    end) es.

(** [ctx.close()] returns a promise: fulfilled on a running context,
    rejected with [InvalidStateError] on a context that is already closed.
    Nothing is thrown at the call. *)
Definition close_context (x : AudioContext) (c : Component) : Component :=
  perform (ContextClose x (negb (context_closed x (effects c)))) c.

Definition stopSession (c : Component) : Component :=
  let c := set_flags false false c in
  let c := match sessionRef c with
           | Some s => perform (SessionClose s) c
           | None => c
           end in
  let c := match streamRef c with
           | Some s => perform (TracksStop s) c
           | None => c
           end in
  let c := match frameIntervalRef c with
           | Some i => perform (ClearInterval i) c
           | None => c
           end in
  let c := match audioContextInRef c with
           | Some x => close_context (audioCtxIn x) c
           | None => c
           end in
  let c := match audioContextOutRef c with
           | Some x => close_context (audioCtxOut x) c
           | None => c
           end in
  set_sessionRef None c.

(** ** The session: [startSession] (lines 82-199) and its callbacks *)

Record World := {
  component : Component;
  attempts : list Attempt       (* one entry per call of [startSession] *)
}.

Definition connecting_entry (now : Z) : PracticeTranscription :=
  {| role := assistant; text := "Connecting to AI Interviewer..."; timestamp := now |}.

(** Lines 83-88: up to the first [await]. There is no test of the
    lifecycle state. *)
Definition startSession (now : Z) (w : World) : World :=
  let a := length (attempts w) in
  let c := set_flags (isActive (component w)) true (component w) in
  let c := enqueue (Value [connecting_entry now]) c in
  {| component := perform (GetUserMedia a) c;
     attempts := attempts w ++
       [{| pc := AwaitDevices; currentOutText := ""; currentInText := "";
           sessionPromise := NotCreated; opened := false |}] |}.

(** Lines 89-193: resumed with the stream, up to the second [await]. *)
Definition startSession_connect (a : nat) (att : Attempt) (w : World) : World :=
  let c := set_media_refs (Some a) (Some a) (Some a) (component w) in
  {| component := perform (Connect a) c;
     attempts := <[a := {| pc := AwaitSession; currentOutText := "";
                           currentInText := ""; sessionPromise := Pending [];
                           opened := opened att |}]> (attempts w) |}.

(** Line 193, resumed with the session: the handle is stored whatever the
    state of the component; then the callbacks that waited on the promise
    run in order. *)
Definition startSession_resume (a : nat) (att : Attempt) (waiting : list Media)
    (w : World) : World :=
  let c := set_sessionRef (Some a) (component w) in
  {| component := fold_left (fun c m => perform (SendRealtimeInput a m) c) waiting c;
     attempts := <[a := set_control Finished Resolved (opened att) att]> (attempts w) |}.

(** Lines 194-198: the [catch] block. *)
Definition startSession_catch (a : nat) (att : Attempt) (pr : Promise)
    (w : World) : World :=
  let c := perform ConsoleError (component w) in
  let c := stopSession c in
  {| component := perform Alert c;
     attempts := <[a := set_control Finished pr (opened att) att]> (attempts w) |}.

(** Lines 114-154: [onopen]. *)
Definition onopen (a : nat) (att : Attempt) (w : World) : World :=
  let c := set_flags true false (component w) in
  let c := set_frameInterval (Some a) c in
  {| component := perform (SetInterval a) c;
     attempts := <[a := set_control (pc att) (sessionPromise att) true att]> (attempts w) |}.

(** [sessionPromise.then(session => session.sendRealtimeInput({ media }))]
    (lines 130 and 147): no test of the session handle. *)
Definition then_send (a : nat) (media : Media) (att : Attempt) (w : World) : World :=
  match sessionPromise att with
  | Pending waiting =>
      {| component := component w;
         attempts := <[a := set_control (pc att) (Pending (waiting ++ [media]))
                                        (opened att) att]> (attempts w) |}
  | Resolved =>
      {| component := perform (SendRealtimeInput a media) (component w);
         attempts := attempts w |}
  | NotCreated | Rejected => w
  end.

(** Lines 121-131. *)
Definition onaudioprocess (a : nat) (inputData : list Float) (att : Attempt)
    (w : World) : World :=
  then_send a (pcmBlob inputData) att w.

(** Lines 145-148: a video frame whose data URL carries [base64]. *)
Definition onloadend (a : nat) (base64 : string) (att : Attempt) (w : World) : World :=
  then_send a {| data := base64; mimeType := "image/jpeg" |} att w.

(** The display offers the start button only in the branch
    [!isActive && !isConnecting] (line 211) and the stop button only when
    [isActive] (line 265); elsewhere there is nothing to click. *)
Definition click_start (now : Z) (w : World) : World :=
  if negb (isActive (component w)) && negb (isConnecting (component w))
  then startSession now w
  else w.

Definition click_stop (w : World) : World :=
  if isActive (component w)
  then {| component := stopSession (component w); attempts := attempts w |}
  else w.

(** What the environment can do to the component. *)
Inductive Event :=
| ClickStart (now : Z)
| ClickStop
| DevicesGranted (a : nat)          (* [getUserMedia] resolves *)
| DevicesDenied (a : nat)           (* [getUserMedia] rejects *)
| ChannelOpen (a : nat)             (* [onopen] *)
| ConnectResolved (a : nat)         (* [sessionPromise] resolves *)
| ConnectRejected (a : nat)         (* [sessionPromise] rejects *)
| Message (a : nat) (t : Tick) (message : Live.ServerMessage)
| ChannelClose (a : nat)            (* [onclose] *)
| ChannelError (a : nat)            (* [onerror] *)
| AudioProcess (a : nat) (inputData : list Float)
| VideoFrame (a : nat) (base64 : string)
| Render (now : Z).

Definition connect_issued (att : Attempt) : bool :=
  match sessionPromise att with
  | NotCreated => false
  | _ => true
  end.

(** One event; [None] when the event cannot happen in this state: a
    continuation runs once, where its call is suspended; the channel opens
    once, before the connection promise resolves; messages and captured
    media come from an open channel and a running input context. *)
Definition step (w : World) (e : Event) : option World :=
  match e with
  | ClickStart now => Some (click_start now w)
  | ClickStop => Some (click_stop w)
  | DevicesGranted a =>
      att ← attempts w !! a;
      match pc att with
      | AwaitDevices => Some (startSession_connect a att w)
      | _ => None
      end
  | DevicesDenied a =>
      att ← attempts w !! a;
      match pc att with
      | AwaitDevices => Some (startSession_catch a att (sessionPromise att) w)
      | _ => None
      end
  | ChannelOpen a =>
      att ← attempts w !! a;
      match sessionPromise att, opened att with
      | Pending _, false => Some (onopen a att w)
      | _, _ => None
      end
  | ConnectResolved a =>
      att ← attempts w !! a;
      match pc att, sessionPromise att, opened att with
      | AwaitSession, Pending waiting, true => Some (startSession_resume a att waiting w)
      | _, _, _ => None
      end
  | ConnectRejected a =>
      att ← attempts w !! a;
      match pc att, sessionPromise att with
      | AwaitSession, Pending _ => Some (startSession_catch a att Rejected w)
      | _, _ => None
      end
  | Message a t message =>
      att ← attempts w !! a;
      if opened att then
        match onmessage a t message (att, component w) with
        | Fulfilled (att', c) =>
            Some {| component := c; attempts := <[a := att']> (attempts w) |}
        | RejectedWith e (att', c) =>
            Some {| component := perform (UnhandledRejection e) c;
                    attempts := <[a := att']> (attempts w) |}
        end
      else None
  | ChannelClose a =>
      att ← attempts w !! a;
      if connect_issued att
      then Some {| component := stopSession (component w); attempts := attempts w |}
      else None
  | ChannelError a =>
      att ← attempts w !! a;
      if connect_issued att
      then Some {| component := stopSession (perform ConsoleError (component w));
                   attempts := attempts w |}
      else None
  | AudioProcess a inputData =>
      att ← attempts w !! a;
      if opened att && negb (context_closed (audioCtxIn a) (effects (component w)))
      then Some (onaudioprocess a inputData att w)
      else None
  | VideoFrame a base64 =>
      att ← attempts w !! a;
      if opened att then Some (onloadend a base64 att w) else None
  | Render now =>
      Some {| component := render (attempts w) now (component w);
              attempts := attempts w |}
  end.

Fixpoint run (w : World) (trace : list Event) : option World :=
  match trace with
  | [] => Some w
  | e :: rest => w' ← step w e; run w' rest
  end.

(** The component as mounted: the initial values of [useState] and
    [useRef] (lines 49-63). *)
Definition mounted : World :=
  {| component :=
       {| isActive := false; isConnecting := false;
          transcriptions := []; updateQueue := [];
          sessionRef := None; streamRef := None;
          audioContextInRef := None; audioContextOutRef := None;
          nextStartTimeRef := 0%Q; frameIntervalRef := None; effects := [] |};
     attempts := [] |}.

(** ** Vocabulary of the properties *)

(** *** Messages *)

(** A server content with every field absent, and with one field set. *)
Definition no_content : Live.ServerContent :=
  {| Live.modelTurn := None; Live.turnComplete := None; Live.interrupted := None;
     Live.inputTranscription := None; Live.outputTranscription := None |}.

Definition with_interrupted (flag : option bool) (sc : Live.ServerContent)
    : Live.ServerContent :=
  {| Live.modelTurn := Live.modelTurn sc; Live.turnComplete := Live.turnComplete sc;
     Live.interrupted := flag;
     Live.inputTranscription := Live.inputTranscription sc;
     Live.outputTranscription := Live.outputTranscription sc |}.

Definition message_of (sc : Live.ServerContent) : Live.ServerMessage :=
  {| Live.serverContent := Some sc |}.

(** [{ serverContent: { interrupted: true } }] *)
Definition interruption_signal : Live.ServerMessage :=
  message_of (with_interrupted (Some true) no_content).

(** [{ serverContent: { turnComplete: true } }] *)
Definition turn_complete_signal : Live.ServerMessage :=
  message_of {| Live.modelTurn := None; Live.turnComplete := Some true;
                Live.interrupted := None; Live.inputTranscription := None;
                Live.outputTranscription := None |}.

(** [{ serverContent: { outputTranscription: { text } } }] and its input twin. *)
Definition output_fragment (s : string) : Live.ServerMessage :=
  message_of {| Live.modelTurn := None; Live.turnComplete := None;
                Live.interrupted := None; Live.inputTranscription := None;
                Live.outputTranscription := Some {| Live.text := Some s |} |}.

Definition input_fragment (s : string) : Live.ServerMessage :=
  message_of {| Live.modelTurn := None; Live.turnComplete := None;
                Live.interrupted := None;
                Live.inputTranscription := Some {| Live.text := Some s |};
                Live.outputTranscription := None |}.

(** An event that carries both transcriptions. *)
Definition both_fragments (out inp : string) : Live.ServerMessage :=
  message_of {| Live.modelTurn := None; Live.turnComplete := None;
                Live.interrupted := None;
                Live.inputTranscription := Some {| Live.text := Some inp |};
                Live.outputTranscription := Some {| Live.text := Some out |} |}.

(** [{ serverContent: { modelTurn: { parts: [{ inlineData: { data } }] } } }] *)
Definition audio_payload (d : string) : Live.ServerMessage :=
  message_of {| Live.modelTurn :=
                  Some {| Live.parts :=
                            Some [{| Live.inlineData := Some {| Live.data := Some d |} |}] |};
                Live.turnComplete := None; Live.interrupted := None;
                Live.inputTranscription := None; Live.outputTranscription := None |}.

(** [{ serverContent: { modelTurn: {} } }]: a model turn without [parts]. *)
Definition turn_without_parts : Live.ServerMessage :=
  message_of {| Live.modelTurn := Some {| Live.parts := None |};
                Live.turnComplete := None; Live.interrupted := None;
                Live.inputTranscription := None; Live.outputTranscription := None |}.

(** *** Playback *)

(** What the audio part of a message amounts to. *)
Inductive AudioOutcome :=
| NoAudio                          (* no payload, or an empty one *)
| BadLookup (e : JsError)          (* line 171 throws *)
| BadAudio (e : JsError)           (* line 174 throws *)
| Audio (buffer : AudioBuffer).

Definition audio_outcome (message : Live.ServerMessage) : AudioOutcome :=
  match audioData_of message with
  | Throw e => BadLookup e
  | Ok None => NoAudio
  | Ok (Some d) =>
      if truthy_string d then
        match (bytes ← decode d; decodeAudioData bytes 24000) with
        | Ok buffer => Audio buffer
        | Throw e => BadAudio e
        end
      else NoAudio
  end.

Definition is_interruption (message : Live.ServerMessage) : bool :=
  truthy_opt_bool (content_field Live.interrupted message).

Definition is_turn_complete (message : Live.ServerMessage) : bool :=
  truthy_opt_bool (content_field Live.turnComplete message).








(** The cursor after one message, and the source it starts, read off the
    kind of its audio part. *)
Definition cursor_after (cursor : Q) (t : Tick) (m : Live.ServerMessage) : Q :=
  match audio_outcome m with
  | BadLookup _ => cursor
  | BadAudio _ => Math_max cursor (currentTime t)
  | NoAudio => if is_interruption m then 0%Q else cursor
  | Audio b =>
      if is_interruption m then 0%Q
      else (Math_max cursor (currentTime t) + duration b)%Q
  end.

Definition sources_of (a : nat) (cursor : Q) (t : Tick) (m : Live.ServerMessage)
    : list Effect :=
  match audio_outcome m with
  | Audio b => [SourceStart a (Math_max cursor (currentTime t)) b]
  | _ => []
  end.


(** *** Transcription *)

(** The fragment an event adds to the assistant buffer and to the user
    buffer: the input fragment counts only when there is no output one. *)
Definition assistant_fragment (message : Live.ServerMessage) : string :=
  match content_field Live.outputTranscription message with
  | Some tr => js_to_string (Live.text tr)
  | None => ""
  end.

Definition user_fragment (message : Live.ServerMessage) : string :=
  match content_field Live.outputTranscription message,
        content_field Live.inputTranscription message with
  | None, Some tr => js_to_string (Live.text tr)
  | _, _ => ""
  end.

Definition concat_all (l : list string) : string :=
  fold_right (fun s acc => (s +:+ acc)%string) "" l.

(** *** Capture and base64 *)

(** The samples a block of the capture pipeline carries, as the integers
    the receiver reads back. *)
Definition pcm16 (inputData : list Float) : list Z :=
  map (fun x => ToInt16 (times_32768 x)) inputData.

(** The sextets of a byte sequence, before they are turned into
    characters and padded. *)
Fixpoint sextets_of_bytes (bs : list Z) : list Z :=
  match bs with
  | [] => []
  | [a] => [Z.shiftr a 2; Z.shiftl (Z.land a 3) 4]
  | [a; b] =>
      [Z.shiftr a 2;
       Z.lor (Z.shiftl (Z.land a 3) 4) (Z.shiftr b 4);
       Z.shiftl (Z.land b 15) 2]
  | a :: b :: c :: rest =>
      Z.shiftr a 2
      :: Z.lor (Z.shiftl (Z.land a 3) 4) (Z.shiftr b 4)
      :: Z.lor (Z.shiftl (Z.land b 15) 2) (Z.shiftr c 6)
      :: Z.land c 63
      :: sextets_of_bytes rest
  end.

Definition is_byte (b : Z) : Prop := 0 <= b < 256.
Definition is_sextet (s : Z) : Prop := 0 <= s < 64.
Definition is_int16 (v : Z) : Prop := -32768 <= v < 32768.

Definition byte_values : list Z := map Z.of_nat (seq 0 256).
Definition sextet_values : list Z := map Z.of_nat (seq 0 64).

Definition in_range (lo hi x : Z) : bool := (lo <=? x) && (x <? hi).

(** The bit identities behind the round trip, as checks on one byte and on
    two adjacent bytes. *)
Definition check_byte (a : Z) : bool :=
  in_range 0 64 (Z.shiftr a 2)
  && in_range 0 64 (Z.shiftl (Z.land a 3) 4)
  && in_range 0 64 (Z.shiftl (Z.land a 15) 2)
  && in_range 0 64 (Z.land a 63)
  && (Z.lor (Z.shiftl (Z.shiftr a 2) 2) (Z.shiftr (Z.shiftl (Z.land a 3) 4) 4) =? a)
  && (Z.lor (Z.shiftl (Z.shiftr a 4) 4) (Z.land a 15) =? a)
  && (Z.shiftr (Z.shiftl (Z.land a 15) 2) 2 =? Z.land a 15)
  && (Z.land (Z.shiftl (Z.land a 3) 4) 15 =? 0).

Definition check_pair (a b : Z) : bool :=
  let s1 := Z.lor (Z.shiftl (Z.land a 3) 4) (Z.shiftr b 4) in
  let s2 := Z.lor (Z.shiftl (Z.land a 15) 2) (Z.shiftr b 6) in
  in_range 0 64 s1
  && in_range 0 64 s2
  && (Z.lor (Z.shiftl (Z.shiftr a 2) 2) (Z.shiftr s1 4) =? a)
  && (Z.land s1 15 =? Z.shiftr b 4)
  && (Z.shiftr s2 2 =? Z.land a 15)
  && (Z.lor (Z.shiftl (Z.land s2 3) 6) (Z.land b 63) =? b).

(** *** Reference sessions *)

(** A reference session: started, devices granted, channel open, promise
    resolved. *)
Definition connected : list Event :=
  [ClickStart 5; Render 6; DevicesGranted 0%nat; ChannelOpen 0%nat;
   ConnectResolved 0%nat].

(** The component and the variables of attempt 0 in the reference session. *)
Definition ready_world : World := default mounted (run mounted connected).

Definition ready : Attempt * Component :=
  (default {| pc := Finished; currentOutText := ""; currentInText := "";
              sessionPromise := Resolved; opened := true |}
           (attempts ready_world !! 0%nat),
   component ready_world).

(** A handler that starts at clock reading [now] with React busy. *)
Definition tick_at (now : Q) : Tick :=
  {| currentTime := now; dateNow := 0; idle := false |}.

(** The buffer the payload "AAA" decodes to: one frame of silence. *)
Definition one_frame : AudioBuffer :=
  {| sampleRate := 24000; channelData := [(inject_Z 0 / 32768)%Q] |}.



(** A turn in which both sides spoke, ended by a turn-complete signal that
    is handled at wall-clock time 7 with React idle or busy ([i]), then
    rendered at time 8. *)
Definition spoken_turn (i : bool) : list Event :=
  connected ++
  [Message 0%nat (tick_at 0) (input_fragment "Hi");
   Message 0%nat (tick_at 0) (output_fragment "Hello");
   Message 0%nat {| currentTime := 0; dateNow := 7; idle := i |} turn_complete_signal;
   Render 8].

(** A turn in which only the assistant spoke, with React idle or busy. *)
Definition assistant_turn (i : bool) : list Event :=
  connected ++
  [Message 0%nat (tick_at 0) (output_fragment "Hello");
   Message 0%nat (tick_at 0) (output_fragment " there");
   Message 0%nat {| currentTime := 0; dateNow := 7; idle := i |} turn_complete_signal;
   Render 8].

(** The stop button, then the channel's [onclose]. *)
Definition stopped_twice : list Event :=
  connected ++ [ClickStop; ChannelClose 0%nat].

(** The stop button between [onopen] and the resolution of the
    connection promise, with one audio block captured in between. *)
Definition stop_while_connecting : list Event :=
  [ClickStart 5; DevicesGranted 0%nat; ChannelOpen 0%nat;
   AudioProcess 0%nat [Finite (1 # 2)]; ClickStop].

Definition stopped (w : World) : World :=
  {| component := stopSession (component w); attempts := attempts w |}.

(** The session between [onopen] and the resolution of the connection
    promise, one audio block captured. *)
Definition connecting_world : World :=
  default mounted
    (run mounted [ClickStart 5; DevicesGranted 0%nat; ChannelOpen 0%nat;
                  AudioProcess 0%nat [Finite (1 # 2)]]).

Definition connecting_attempt : Attempt :=
  {| pc := AwaitSession; currentOutText := ""; currentInText := "";
     sessionPromise := Pending [pcmBlob [Finite (1 # 2)]]; opened := true |}.

(** A session stopped before its connection promise resolved, then a
    second session started from the display; both promises resolve. *)
Definition restart_after_early_stop : list Event :=
  stop_while_connecting ++
  [ClickStart 9; DevicesGranted 1%nat; ChannelOpen 1%nat;
   ConnectResolved 0%nat; ConnectResolved 1%nat].

Definition is_session_close (e : Effect) : bool :=
  match e with
  | SessionClose _ => true
  | _ => false
  end.

(** ** Vocabulary of the further properties *)

(** A character of the base64 alphabet, or the padding character. *)
Definition is_text_safe (c : ascii) : bool :=
  match b64_index c with
  | Some _ => true
  | None => Ascii.eqb c pad_char
  end.

(** The value a 16-bit sample plays back as. *)
Definition sample_of_int16 (v : Z) : Q := (inject_Z v / 32768)%Q.

(** The effects of a teardown: releases, logging and the alert. *)
Definition is_teardown_effect (e : Effect) : bool :=
  match e with
  | SessionClose _ | TracksStop _ | ClearInterval _ | ContextClose _ _
  | ConsoleError | Alert => true
  | _ => false
  end.

(** What the two capture pipelines hand over: an audio block, or the
    base64 payload of a video frame. *)
Inductive Capture :=
| AudioBlock (inputData : list Float)
| VideoImage (base64 : string).

Definition capture_event (a : nat) (k : Capture) : Event :=
  match k with
  | AudioBlock inputData => AudioProcess a inputData
  | VideoImage base64 => VideoFrame a base64
  end.

Definition capture_media (k : Capture) : Media :=
  match k with
  | AudioBlock inputData => pcmBlob inputData
  | VideoImage base64 => {| data := base64; mimeType := "image/jpeg" |}
  end.

Definition is_message (e : Event) : bool :=
  match e with
  | Message _ _ _ => true
  | _ => false
  end.

(** What playback depends on: the cursor and the sources started. *)
Definition playback (c : Component) : Q * list Q :=
  (nextStartTimeRef c, start_times (effects c)).

Definition is_updater (u : Update) : bool :=
  match u with
  | Updater _ => true
  | Value _ => false
  end.

(** A queue that can only add to the transcript [shown]: updater
    functions, after at most one value that React computed from [shown] by
    calling an updater at once. *)
Definition appending (shown : list PracticeTranscription) (q : list Update) : Prop :=
  match q with
  | Value v :: rest =>
      (exists entry, v = shown ++ [entry]) /\ forallb is_updater rest = true
  | _ => forallb is_updater q = true
  end.

(** The number of turn-complete signals among the events. *)
Definition turns (events : list (Tick * Live.ServerMessage)) : nat :=
  fold_right (fun ev n => if is_turn_complete (snd ev) then S n else n) 0%nat events.

(** * Properties *)

(** ** The clamp *)

Lemma Math_max_ge_l (a b : Q) : (a <= Math_max a b)%Q.
Proof.
  unfold Math_max. destruct (Qle_bool a b) eqn:E.
  - now apply Qle_bool_iff.
  - apply Qle_refl.
Qed.

Lemma Math_max_ge_r (a b : Q) : (b <= Math_max a b)%Q.
Proof.
  unfold Math_max. destruct (Qle_bool a b) eqn:E.
  - apply Qle_refl.
  - apply Qlt_le_weak, Qnot_le_lt. intro H. apply Qle_bool_iff in H. congruence.
Qed.


Lemma duration_decoded (data : list Z) (b : AudioBuffer) :
  decodeAudioData data 24000 = Ok b -> (0 < duration b)%Q.
Proof.
  unfold decodeAudioData, Int16Array_of_buffer.
  destruct (Z.odd _); [discriminate|]. cbn.
  destruct (int16_pairs data) as [|v l] eqn:E; cbn; [discriminate|].
  intros [= <-]. unfold duration; cbn [channelData sampleRate length map].
  unfold Qlt, Qdiv, Qmult, Qinv, inject_Z; cbn. lia.
Qed.

Lemma audio_duration_pos (m : Live.ServerMessage) (b : AudioBuffer) :
  audio_outcome m = Audio b -> (0 < duration b)%Q.
Proof.
  unfold audio_outcome.
  destruct (audioData_of m) as [[d|]|]; try discriminate.
  destruct (truthy_string d); try discriminate.
  destruct (decode d) as [bytes|] eqn:D; cbn; try discriminate.
  destruct (decodeAudioData bytes 24000) eqn:E; try discriminate.
  intros [= <-]. eapply duration_decoded; eauto.
Qed.

(** ** What [onmessage] does to the cursor and to the sources *)

Lemma flush_turn_frame a t m att c :
  nextStartTimeRef (snd (flush_turn a t m (att, c))) = nextStartTimeRef c
  /\ effects (snd (flush_turn a t m (att, c))) = effects c.
Proof.
  unfold flush_turn, setTranscriptions.
  destruct (truthy_opt_bool _); [|easy].
  destruct (truthy_string (currentInText att)), (truthy_string (currentOutText att));
    repeat (destruct (_ && _)); cbn; easy.
Qed.

Lemma onmessage_playback a t m att c :
  let s' := final_state (onmessage a t m (att, c)) in
  nextStartTimeRef (snd s') = cursor_after (nextStartTimeRef c) t m
  /\ effects (snd s') = effects c ++ sources_of a (nextStartTimeRef c) t m.
Proof.
  cbn zeta. unfold onmessage, cursor_after, sources_of, audio_outcome, is_interruption.
  cbn [fst snd].
  pose proof (flush_turn_frame a t m (append_fragment m att) c) as [Hc He].
  destruct (flush_turn a t m (append_fragment m att, c)) as [att1 c1].
  cbn [snd] in Hc, He.
  destruct (audioData_of m) as [[d|]|e]; cbn [final_state snd].
  - destruct (truthy_string d).
    + unfold schedule.
      destruct (bytes ← decode d; decodeAudioData bytes 24000) as [b|e];
        cbn [final_state snd]; unfold interrupt;
        try destruct (truthy_opt_bool _); cbn; rewrite ?Hc, ?He, ?app_nil_r; easy.
    + unfold interrupt. destruct (truthy_opt_bool _); cbn; rewrite ?Hc, ?He, ?app_nil_r; easy.
  - unfold interrupt. destruct (truthy_opt_bool _); cbn; rewrite ?Hc, ?He, ?app_nil_r; easy.
  - rewrite ?Hc, ?He, ?app_nil_r; easy.
Qed.


Lemma start_times_app (l1 l2 : list Effect) :
  start_times (l1 ++ l2) = start_times l1 ++ start_times l2.
Proof. unfold start_times. apply flat_map_app. Qed.

Lemma deliver_cons a s ev evs :
  deliver a s (ev :: evs) = deliver a (final_state (onmessage a (fst ev) (snd ev) s)) evs.
Proof. reflexivity. Qed.


(** Whatever is delivered, a source never starts before the clock reading
    of its message. *)
Lemma deliver_starts_after a (T : Q) evs :
  Forall (fun ev => (T <= currentTime (fst ev))%Q) evs ->
  forall s, exists started,
    effects (snd (deliver a s evs)) = effects (snd s) ++ started
    /\ Forall (fun w => (T <= w)%Q) (start_times started).
Proof.
  induction 1 as [|ev evs Hev _ IH]; intros [att c].
  - exists []. cbn. now rewrite app_nil_r.
  - rewrite deliver_cons.
    pose proof (onmessage_playback a (fst ev) (snd ev) att c) as [_ He].
    cbn zeta in He.
    destruct (IH (final_state (onmessage a (fst ev) (snd ev) (att, c))))
      as [started [IHe IHs]].
    exists (sources_of a (nextStartTimeRef c) (fst ev) (snd ev) ++ started). split.
    + rewrite IHe, He, <- app_assoc. reflexivity.
    + rewrite start_times_app. apply Forall_app. split; [|exact IHs].
      unfold sources_of. destruct (audio_outcome (snd ev)); cbn; constructor; auto.
      eapply Qle_trans; [exact Hev|apply Math_max_ge_r].
Qed.

(** ** The clamp-and-advance schedule *)







(** ** Interruption *)

Lemma onmessage_fulfilled a t m s s' :
  onmessage a t m s = Fulfilled s' ->
  exists c, snd s' = interrupt m c.
Proof.
  unfold onmessage.
  destruct (flush_turn a t m (append_fragment m (fst s), snd s)) as [att c].
  destruct (audioData_of m) as [ad|e]; [|discriminate].
  destruct (match ad with
            | Some d => if truthy_string d then schedule a t d c else Fulfilled c
            | None => Fulfilled c
            end) as [c'|e c']; [|discriminate].
  intros [= <-]. now exists c'.
Qed.

(** C1 (as amended): an interruption signal whose handler runs to the end
    resets the cursor to 0, whatever the cursor and the clock were; every
    source started by a later message, handled at a clock reading that is
    at least the reading T of the interruption, starts at T or later. *)
Theorem interruption_resets_cursor_to_zero a t m s s' evs :
  is_interruption m = true ->
  onmessage a t m s = Fulfilled s' ->
  Forall (fun ev => (currentTime t <= currentTime (fst ev))%Q) evs ->
  nextStartTimeRef (snd s') = 0%Q
  /\ exists started,
       effects (snd (deliver a s' evs)) = effects (snd s') ++ started
       /\ Forall (fun w => (currentTime t <= w)%Q) (start_times started).
Proof.
  intros Hi Hf Hev. split.
  - destruct (onmessage_fulfilled _ _ _ _ _ Hf) as [c ->].
    unfold interrupt. unfold is_interruption in Hi. now rewrite Hi.
  - apply deliver_starts_after. exact Hev.
Qed.

Lemma interruption_resets_cursor_to_zero_witness :
  is_interruption interruption_signal = true
  /\ onmessage 0 (tick_at 5) interruption_signal ready
     = Fulfilled (fst ready, set_nextStartTime 0 (snd ready))
  /\ Forall (fun ev => (currentTime (tick_at 5) <= currentTime (fst ev))%Q)
            [(tick_at 6, audio_payload "AAA")]
  /\ nextStartTimeRef (set_nextStartTime 0 (snd ready)) = 0%Q.
Proof.
  assert (H1 : is_interruption interruption_signal = true) by reflexivity.
  assert (H2 : onmessage 0 (tick_at 5) interruption_signal ready
               = Fulfilled (fst ready, set_nextStartTime 0 (snd ready))) by reflexivity.
  assert (H3 : Forall (fun ev => (currentTime (tick_at 5) <= currentTime (fst ev))%Q)
                      [(tick_at 6, audio_payload "AAA")]).
  { repeat constructor. vm_compute. discriminate. }
  split; [exact H1|]. split; [exact H2|]. split; [exact H3|].
  exact (proj1 (interruption_resets_cursor_to_zero 0 (tick_at 5) interruption_signal
                  ready _ _ H1 H2 H3)).
Defined.

(** C1, as stated, fails: an interruption handled at clock reading 5
    leaves the cursor at 0, not at 5. *)
Lemma interruption_cursor_is_not_clock :
  ~ (nextStartTimeRef (snd (final_state
        (onmessage 0 (tick_at 5) interruption_signal ready))) == 5)%Q.
Proof. vm_compute. discriminate. Qed.

(** C10: the interrupted flag changes nothing but the cursor. Handling a
    message with the flag set gives the result of handling the same
    message without it, with the cursor set to 0 when the handler runs to
    the end; and a bare interruption signal leaves the pending buffers,
    the transcript and its queue, and the sources already started as they
    were. *)
Theorem interruption_touches_only_cursor a t sc att c :
  onmessage a t (message_of (with_interrupted (Some true) sc)) (att, c)
  = match onmessage a t (message_of (with_interrupted None sc)) (att, c) with
    | Fulfilled (att', c') => Fulfilled (att', set_nextStartTime 0 c')
    | RejectedWith e s => RejectedWith e s
    end
  /\ onmessage a t interruption_signal (att, c)
     = Fulfilled (att, set_nextStartTime 0 c)
  /\ (let c' := set_nextStartTime 0 c in
      transcriptions c' = transcriptions c
      /\ updateQueue c' = updateQueue c
      /\ effects c' = effects c).
Proof.
  split; [|split; [|repeat split]].
  - unfold onmessage. cbn [fst snd].
    change (append_fragment (message_of (with_interrupted (Some true) sc)) att)
      with (append_fragment (message_of (with_interrupted None sc)) att).
    change (flush_turn a t (message_of (with_interrupted (Some true) sc)))
      with (flush_turn a t (message_of (with_interrupted None sc))).
    destruct (flush_turn a t _ _) as [att1 c1].
    change (audioData_of (message_of (with_interrupted (Some true) sc)))
      with (audioData_of (message_of (with_interrupted None sc))).
    destruct (audioData_of _) as [ad|e]; [|reflexivity].
    destruct (match ad with
              | Some d => if truthy_string d then schedule a t d c1 else Fulfilled c1
              | None => Fulfilled c1
              end) as [c'|e c']; reflexivity.
  - destruct att. reflexivity.
Qed.

(** ** Missing fields *)

(** Line 171 throws only on a model turn that has no [parts]. *)
Lemma audioData_of_defined m :
  (forall turn, content_field Live.modelTurn m = Some turn -> Live.parts turn <> None) ->
  exists audioData, audioData_of m = Ok audioData.
Proof.
  intros H. unfold audioData_of.
  destruct (content_field Live.modelTurn m) as [turn|]; [|eauto].
  specialize (H turn eq_refl).
  destruct (Live.parts turn) as [[|part ps]|]; [eauto| |congruence].
  destruct (Live.inlineData part); eauto.
Qed.

(** A message without an audio payload is handled to the end, whichever
    of its other fields are missing. *)
Lemma onmessage_fulfils_without_audio a t m s :
  audio_outcome m = NoAudio ->
  exists s', onmessage a t m s = Fulfilled s'.
Proof.
  unfold audio_outcome, onmessage.
  destruct (flush_turn a t m (append_fragment m (fst s), snd s)) as [att c].
  destruct (audioData_of m) as [[d|]|e]; try discriminate; [|eauto].
  destruct (truthy_string d); [|eauto].
  destruct (bytes ← decode d; decodeAudioData bytes 24000); discriminate.
Qed.

(** C8, at the failing input: a message whose model turn has no [parts]
    makes the handler reject with a TypeError, whatever the state. *)
Theorem turn_without_parts_rejects a t att c :
  onmessage a t turn_without_parts (att, c) = RejectedWith TypeError (att, c).
Proof. destruct att. reflexivity. Qed.

(** ** Transcription fragments *)

Lemma append_assoc (a b c : string) : ((a +:+ b) +:+ c = a +:+ (b +:+ c))%string.
Proof.
  induction a as [|x a IH]; [reflexivity|].
  change (String x ((a +:+ b) +:+ c) = String x (a +:+ (b +:+ c))).
  now rewrite IH.
Qed.

Lemma append_empty_r (a : string) : (a +:+ "" = a)%string.
Proof.
  induction a as [|x a IH]; [reflexivity|].
  change (String x (a +:+ "") = String x a). now rewrite IH.
Qed.

(** The buffers after one message that does not end a turn. *)
Lemma onmessage_buffers a t m att c :
  is_turn_complete m = false ->
  let att' := fst (final_state (onmessage a t m (att, c))) in
  currentOutText att' = (currentOutText att +:+ assistant_fragment m)%string
  /\ currentInText att' = (currentInText att +:+ user_fragment m)%string.
Proof.
  intros Htc. cbn zeta.
  assert (Hfst : fst (final_state (onmessage a t m (att, c))) = append_fragment m att).
  { unfold onmessage, flush_turn. cbn [fst snd].
    unfold is_turn_complete in Htc. rewrite Htc.
    destruct (audioData_of m) as [[d|]|e]; try reflexivity.
    destruct (truthy_string d); [|reflexivity].
    destruct (schedule a t d c); reflexivity. }
  rewrite Hfst. unfold append_fragment, assistant_fragment, user_fragment.
  destruct (content_field Live.outputTranscription m) as [tr|].
  - cbn. now rewrite append_empty_r.
  - destruct (content_field Live.inputTranscription m) as [tr|]; cbn;
      now rewrite ?append_empty_r.
Qed.

(** C4 (as amended): over any sequence of events delivered before a
    turn-complete signal, each event adds its output fragment to the
    assistant buffer when it has one, and otherwise its input fragment to
    the user buffer; so each buffer is what it was, followed by the
    fragments so added in arrival order. The input fragment of an event
    that carries both is not added. *)
Theorem fragments_accumulate_in_arrival_order a evs :
  Forall (fun ev => is_turn_complete (snd ev) = false) evs ->
  forall att c,
    let att' := fst (deliver a (att, c) evs) in
    currentOutText att'
    = (currentOutText att +:+ concat_all (map (fun ev => assistant_fragment (snd ev)) evs))%string
    /\ currentInText att'
       = (currentInText att +:+ concat_all (map (fun ev => user_fragment (snd ev)) evs))%string.
Proof.
  induction 1 as [|ev evs Hev _ IH]; intros att c; cbn zeta.
  - cbn. now rewrite !append_empty_r.
  - rewrite deliver_cons.
    destruct (onmessage_buffers a (fst ev) (snd ev) att c Hev) as [Ho Hi].
    destruct (final_state (onmessage a (fst ev) (snd ev) (att, c))) as [att1 c1].
    cbn [fst] in Ho, Hi.
    destruct (IH att1 c1) as [IHo IHi]. cbn zeta in IHo, IHi.
    rewrite IHo, IHi, Ho, Hi. cbn [map concat_all fold_right].
    now rewrite !append_assoc.
Qed.

Lemma fragments_accumulate_in_arrival_order_witness :
  Forall (fun ev => is_turn_complete (snd ev) = false)
         [(tick_at 0, output_fragment "Hello"); (tick_at 0, input_fragment "Hi");
          (tick_at 0, output_fragment " there")]
  /\ currentOutText (fst (deliver 0 ready
       [(tick_at 0, output_fragment "Hello"); (tick_at 0, input_fragment "Hi");
        (tick_at 0, output_fragment " there")])) = "Hello there".
Proof.
  assert (H : Forall (fun ev => is_turn_complete (snd ev) = false)
         [(tick_at 0, output_fragment "Hello"); (tick_at 0, input_fragment "Hi");
          (tick_at 0, output_fragment " there")]) by (repeat constructor).
  split; [exact H|].
  exact (proj1 (fragments_accumulate_in_arrival_order 0 _ H (fst ready) (snd ready))).
Defined.

(** C4, as stated, fails: an event that carries both an output and an
    input transcription leaves the user buffer as it was. *)
Lemma input_fragment_dropped_when_both :
  let att' := fst (final_state
                (onmessage 0 (tick_at 0) (both_fragments "Hello" "Hi") ready)) in
  currentOutText att' = "Hello" /\ currentInText att' = "" /\ currentInText att' <> "Hi".
Proof. vm_compute. repeat split; discriminate. Qed.

(** ** The end of a turn *)

(** What does hold of a turn-complete signal: one queued update per
    non-empty buffer, the user's first, and both buffers emptied. *)
Lemma turn_complete_queues_in_order a t att c :
  idle t = false ->
  let s' := final_state (onmessage a t turn_complete_signal (att, c)) in
  currentInText (fst s') = "" /\ currentOutText (fst s') = ""
  /\ updateQueue (snd s')
     = updateQueue c
       ++ (if truthy_string (currentInText att) then [Updater (UserEntry a)] else [])
       ++ (if truthy_string (currentOutText att) then [Updater (AssistantEntry a)] else []).
Proof.
  intros Hi. destruct att as [p o i pr op]. cbn zeta.
  unfold onmessage, flush_turn, setTranscriptions.
  cbn [fst snd append_fragment turn_complete_signal message_of content_field
       Live.serverContent Live.outputTranscription Live.inputTranscription
       Live.turnComplete truthy_opt_bool currentInText currentOutText
       audioData_of Live.modelTurn final_state interrupt Live.interrupted].
  rewrite Hi. cbn [andb].
  destruct (truthy_string i), (truthy_string o); cbn;
    rewrite ?app_nil_r, <- ?app_assoc; auto.
Qed.

(** Whether React calls the updaters at once or at the render, a
    turn-complete signal adds one entry per non-empty buffer, the user's
    before the assistant's, and empties both buffers. *)
Lemma turn_complete_roles_in_order a t att c table now :
  updateQueue c = [] ->
  let s' := final_state (onmessage a t turn_complete_signal (att, c)) in
  table !! a = Some (fst s') ->
  map role (transcriptions (render table now (snd s')))
  = map role (transcriptions c)
    ++ (if truthy_string (currentInText att) then [user] else [])
    ++ (if truthy_string (currentOutText att) then [assistant] else [])
  /\ currentInText (fst s') = "" /\ currentOutText (fst s') = "".
Proof.
  intros Hq. destruct att as [p o i pr op]. destruct c as [ia ic tr uq sr st ai ao ns fi ef].
  cbn in Hq. subst uq. cbn zeta.
  unfold onmessage, flush_turn, setTranscriptions, queue_is_empty.
  cbn [fst snd append_fragment turn_complete_signal message_of content_field
       Live.serverContent Live.outputTranscription Live.inputTranscription
       Live.turnComplete truthy_opt_bool currentInText currentOutText
       audioData_of Live.modelTurn final_state interrupt Live.interrupted
       updateQueue].
  intros Ht. split; [|split; reflexivity].
  unfold render.
  destruct (idle t), (truthy_string i), (truthy_string o);
    cbn [andb enqueue set_transcriptions updateQueue transcriptions app fold_left
         apply_update closure_attempt snd];
    rewrite ?Ht; cbn [call_closure]; rewrite ?map_app, <- ?app_assoc, ?app_nil_r;
    reflexivity.
Qed.

(** With React idle, the assistant's turn is finalized with its text; with
    React busy, with the empty string. *)
Lemma assistant_turn_text (i : bool) :
  option_map (fun w => transcriptions (component w)) (run mounted (assistant_turn i))
  = Some [connecting_entry 5;
          {| role := assistant; text := if i then "Hello there" else "";
             timestamp := if i then 7 else 8 |}].
Proof. destruct i; reflexivity. Qed.

(** C2, at the failing input: the user said "Hi", the assistant said
    "Hello", the turn completes. The two entries are appended in order,
    but the assistant entry carries the empty string, and so does the user
    entry unless React called its updater at once. *)
Theorem turn_complete_entries_lose_text (i : bool) :
  option_map (fun w => transcriptions (component w)) (run mounted (spoken_turn i))
  = Some [connecting_entry 5;
          {| role := user; text := if i then "Hi" else "";
             timestamp := if i then 7 else 8 |};
          {| role := assistant; text := ""; timestamp := 8 |}].
Proof. destruct i; reflexivity. Qed.

(** ** Teardown *)

(** Before any start, [stopSession] finds every ref empty and does
    nothing. *)
Lemma stop_before_start :
  stopSession (component mounted) = component mounted.
Proof. reflexivity. Qed.

(** After any stop the flags are down and the session handle is empty. *)
Lemma stopSession_clears_handle c :
  sessionRef (stopSession c) = None
  /\ isActive (stopSession c) = false /\ isConnecting (stopSession c) = false.
Proof.
  destruct c as [ia ic tr uq sr st ai ao ns fi ef].
  unfold stopSession, close_context.
  destruct sr, st, fi, ai, ao; cbn; auto.
Qed.

(** C5, at the failing input: [stopSession] twice on the connected
    session. The first call closes the channel, stops the tracks, clears
    the timer and closes both contexts; the second one stops the tracks and
    clears the timer again and calls [close()] again on both contexts,
    which are closed: both promises reject. *)
Theorem second_stop_closes_closed_contexts :
  effects (stopSession (stopSession (snd ready)))
  = effects (snd ready) ++
    [SessionClose 0; TracksStop 0; ClearInterval 0;
     ContextClose (audioCtxIn 0) true; ContextClose (audioCtxOut 0) true;
     TracksStop 0; ClearInterval 0;
     ContextClose (audioCtxIn 0) false; ContextClose (audioCtxOut 0) false]
  /\ option_map (fun w => effects (component w)) (run mounted stopped_twice)
     = Some (effects (stopSession (stopSession (snd ready)))).
Proof. split; reflexivity. Qed.

Lemma perform_all a (l : list Media) c :
  let c' := fold_left (fun c m => perform (SendRealtimeInput a m) c) l c in
  effects c' = effects c ++ map (SendRealtimeInput a) l
  /\ sessionRef c' = sessionRef c.
Proof.
  revert c. induction l as [|m l IH]; intros c; cbn.
  - now rewrite app_nil_r.
  - destruct (IH (perform (SendRealtimeInput a m) c)) as [He Hs].
    cbn zeta in He, Hs. rewrite He, Hs. cbn. now rewrite <- app_assoc.
Qed.





(** ** Start *)

(** C7 (as amended): the start control exists only while the session is
    neither connecting nor active, so a click in those states changes
    nothing; [startSession] itself tests no state: whenever it is called it
    raises the connecting flag, opens a new attempt and requests the
    devices. *)
Theorem start_is_guarded_by_the_display_only now w :
  (isActive (component w) || isConnecting (component w) = true ->
   click_start now w = w)
  /\ (isActive (component w) || isConnecting (component w) = false ->
      click_start now w = startSession now w)
  /\ effects (component (startSession now w))
     = effects (component w) ++ [GetUserMedia (length (attempts w))]
  /\ length (attempts (startSession now w)) = S (length (attempts w))
  /\ isConnecting (component (startSession now w)) = true.
Proof.
  split; [|split; [|split; [|split]]].
  - unfold click_start. intros H.
    destruct (isActive (component w)), (isConnecting (component w));
      try discriminate; reflexivity.
  - unfold click_start. intros H.
    destruct (isActive (component w)), (isConnecting (component w));
      try discriminate; reflexivity.
  - reflexivity.
  - unfold startSession. cbn [attempts]. rewrite length_app. cbn. lia.
  - reflexivity.
Qed.

Lemma start_is_guarded_by_the_display_only_witness :
  isActive (component connecting_world) || isConnecting (component connecting_world) = true
  /\ click_start 9 connecting_world = connecting_world
  /\ isActive (component mounted) || isConnecting (component mounted) = false
  /\ click_start 5 mounted = startSession 5 mounted.
Proof.
  assert (H1 : isActive (component connecting_world)
               || isConnecting (component connecting_world) = true) by reflexivity.
  assert (H2 : isActive (component mounted) || isConnecting (component mounted) = false)
    by reflexivity.
  split; [exact H1|].
  split; [exact (proj1 (start_is_guarded_by_the_display_only 9 connecting_world) H1)|].
  split; [exact H2|].
  exact (proj1 (proj2 (start_is_guarded_by_the_display_only 5 mounted)) H2).
Defined.

(** C7, as stated, fails: [startSession] called while the session is
    connecting is not a no-op; it requests the devices a second time and
    opens a second attempt. *)
Lemma startSession_reenters_while_connecting :
  let w := click_start 5 mounted in
  isConnecting (component w) = true
  /\ startSession 6 w <> w
  /\ effects (component (startSession 6 w)) = [GetUserMedia 0; GetUserMedia 1]
  /\ length (attempts (startSession 6 w)) = 2%nat.
Proof.
  cbn zeta. split; [reflexivity|]. split; [|split; vm_compute; reflexivity].
  intro H. apply (f_equal (fun w => length (attempts w))) in H.
  vm_compute in H. discriminate.
Qed.

(** Through the display alone two channels can be open at once: the first
    session is stopped while its handle is still empty, so its channel is
    never closed, and a second session is started. *)
Lemma two_channels_after_early_stop :
  exists w,
    run mounted restart_after_early_stop = Some w
    /\ filter is_session_close (effects (component w)) = []
    /\ sessionRef (component w) = Some 1%nat
    /\ map sessionPromise (attempts w) = [Resolved; Resolved].
Proof.
  exists (default mounted (run mounted restart_after_early_stop)).
  split; [vm_compute; reflexivity|]. split; [vm_compute; reflexivity|].
  split; vm_compute; reflexivity.
Qed.

(** ** Base64: decoding what was encoded *)

Lemma in_byte_values b : is_byte b -> In b byte_values.
Proof.
  intros H. unfold byte_values. apply in_map_iff. exists (Z.to_nat b).
  unfold is_byte in H. split; [lia|]. apply in_seq. lia.
Qed.

Lemma in_sextet_values s : is_sextet s -> In s sextet_values.
Proof.
  intros H. unfold sextet_values. apply in_map_iff. exists (Z.to_nat s).
  unfold is_sextet in H. split; [lia|]. apply in_seq. lia.
Qed.

Lemma check_byte_all a : is_byte a -> check_byte a = true.
Proof.
  assert (H : forallb check_byte byte_values = true) by (vm_compute; reflexivity).
  intros Ha. eapply forallb_forall in H; [exact H|]. now apply in_byte_values.
Qed.

Lemma check_pair_all a b : is_byte a -> is_byte b -> check_pair a b = true.
Proof.
  assert (H : forallb (fun a => forallb (check_pair a) byte_values) byte_values = true)
    by (vm_compute; reflexivity).
  intros Ha Hb.
  eapply forallb_forall in H; [|apply in_byte_values, Ha].
  eapply forallb_forall in H; [exact H|]. now apply in_byte_values.
Qed.

Lemma in_range_spec lo hi x : in_range lo hi x = true -> lo <= x < hi.
Proof. unfold in_range. lia. Qed.

Lemma b64_char_index s : is_sextet s -> b64_index (b64_char s) = Some s.
Proof.
  assert (H : forallb (fun s => match b64_index (b64_char s) with
                                | Some i => i =? s
                                | None => false
                                end) sextet_values = true)
    by (vm_compute; reflexivity).
  intros Hs. eapply forallb_forall in H; [|apply in_sextet_values, Hs].
  cbv beta in H. destruct (b64_index (b64_char s)); [f_equal; lia|discriminate].
Qed.

Lemma b64_char_plain s :
  is_sextet s ->
  Ascii.eqb (b64_char s) pad_char = false
  /\ is_ascii_whitespace (b64_char s) = false.
Proof.
  assert (H : forallb (fun s => negb (Ascii.eqb (b64_char s) pad_char)
                                && negb (is_ascii_whitespace (b64_char s)))
                      sextet_values = true)
    by (vm_compute; reflexivity).
  intros Hs. eapply forallb_forall in H; [|apply in_sextet_values, Hs].
  cbv beta in H. apply andb_prop in H as [H1 H2].
  split; now apply negb_true_iff.
Qed.

Lemma list_ind3 {A} (P : list A -> Prop) :
  P [] -> (forall a, P [a]) -> (forall a b, P [a; b]) ->
  (forall a b c l, P l -> P (a :: b :: c :: l)) ->
  forall l, P l.
Proof.
  intros H0 H1 H2 H3 l.
  assert (H : P l /\ (forall a, P (a :: l)) /\ (forall a b, P (a :: b :: l))).
  { induction l as [|x l (IH0 & IH1 & IH2)]; [auto|].
    split; [exact (IH1 x)|]. split; [exact (fun a => IH2 a x)|].
    intros a b. now apply H3. }
  apply H.
Qed.

Lemma byte_bits a :
  is_byte a ->
  is_sextet (Z.shiftr a 2)
  /\ is_sextet (Z.shiftl (Z.land a 3) 4)
  /\ is_sextet (Z.shiftl (Z.land a 15) 2)
  /\ is_sextet (Z.land a 63)
  /\ Z.lor (Z.shiftl (Z.shiftr a 2) 2) (Z.shiftr (Z.shiftl (Z.land a 3) 4) 4) = a
  /\ Z.lor (Z.shiftl (Z.shiftr a 4) 4) (Z.land a 15) = a
  /\ Z.shiftr (Z.shiftl (Z.land a 15) 2) 2 = Z.land a 15
  /\ Z.land (Z.shiftl (Z.land a 3) 4) 15 = 0.
Proof.
  intros Ha. pose proof (check_byte_all a Ha) as H. unfold check_byte, in_range in H.
  rewrite !andb_true_iff, !Z.eqb_eq, !Z.leb_le, !Z.ltb_lt in H.
  unfold is_sextet. intuition.
Qed.

Lemma pair_bits a b :
  is_byte a -> is_byte b ->
  let s1 := Z.lor (Z.shiftl (Z.land a 3) 4) (Z.shiftr b 4) in
  let s2 := Z.lor (Z.shiftl (Z.land a 15) 2) (Z.shiftr b 6) in
  is_sextet s1
  /\ is_sextet s2
  /\ Z.lor (Z.shiftl (Z.shiftr a 2) 2) (Z.shiftr s1 4) = a
  /\ Z.land s1 15 = Z.shiftr b 4
  /\ Z.shiftr s2 2 = Z.land a 15
  /\ Z.lor (Z.shiftl (Z.land s2 3) 6) (Z.land b 63) = b.
Proof.
  intros Ha Hb. pose proof (check_pair_all a b Ha Hb) as H.
  unfold check_pair, in_range in H. cbv zeta in H.
  rewrite !andb_true_iff, !Z.eqb_eq, !Z.leb_le, !Z.ltb_lt in H.
  unfold is_sextet. cbv zeta. intuition.
Qed.

Ltac split_bytes :=
  repeat match goal with
         | H : Forall is_byte (_ :: _) |- _ =>
             let H1 := fresh "Hbyte" in
             apply Forall_cons_1 in H as [H1 H]
         end.

Lemma sextets_in_range bs :
  Forall is_byte bs -> Forall is_sextet (sextets_of_bytes bs).
Proof.
  induction bs as [|a|a b|a b c l IH] using list_ind3; intros H; split_bytes.
  - constructor.
  - destruct (byte_bits a) as (? & ? & _); [assumption|].
    cbn. repeat (constructor; [assumption|]). constructor.
  - destruct (byte_bits a) as (? & _); [assumption|].
    destruct (byte_bits b) as (_ & _ & ? & _); [assumption|].
    destruct (pair_bits a b) as (? & _); [assumption..|].
    cbn. repeat (constructor; [assumption|]). constructor.
  - destruct (byte_bits a) as (? & _); [assumption|].
    destruct (byte_bits c) as (_ & _ & _ & ? & _); [assumption|].
    destruct (pair_bits a b) as (? & _); [assumption..|].
    destruct (pair_bits b c) as (_ & ? & _); [assumption..|].
    cbn [sextets_of_bytes]. repeat (constructor; [assumption|]). now apply IH.
Qed.

Lemma bytes_of_sextets_of_bytes bs :
  Forall is_byte bs -> bytes_of_sextets (sextets_of_bytes bs) = bs.
Proof.
  induction bs as [|a|a b|a b c l IH] using list_ind3; intros H; split_bytes.
  - reflexivity.
  - destruct (byte_bits a) as (_ & _ & _ & _ & E & _); [assumption|].
    cbn. now rewrite E.
  - destruct (byte_bits b) as (_ & _ & _ & _ & _ & E2 & E3 & _); [assumption|].
    destruct (pair_bits a b) as (_ & _ & E & E1 & _); [assumption..|].
    cbn. now rewrite E, E1, E3, E2.
  - destruct (byte_bits b) as (_ & _ & _ & _ & _ & E2 & _); [assumption|].
    destruct (pair_bits a b) as (_ & _ & E & E1 & _); [assumption..|].
    destruct (pair_bits b c) as (_ & _ & _ & _ & E3 & E4); [assumption..|].
    cbn [sextets_of_bytes bytes_of_sextets].
    rewrite E, E1, E3, E2, E4, IH by assumption. reflexivity.
Qed.

Lemma sextets_of_chars ss :
  Forall is_sextet ss -> sextets_of (map b64_char ss) = Some ss.
Proof.
  induction 1 as [|s ss Hs _ IH]; [reflexivity|].
  cbn [map sextets_of]. now rewrite (b64_char_index s Hs), IH.
Qed.

Lemma strip_padding_group x1 x2 x3 x4 l :
  Ascii.eqb x4 pad_char = false ->
  strip_padding (x1 :: x2 :: x3 :: x4 :: l) = x1 :: x2 :: x3 :: x4 :: strip_padding l.
Proof.
  intros H. destruct l as [|y [|z l]]; cbn; rewrite ?H; try reflexivity.
  destruct (Ascii.eqb y pad_char); reflexivity.
Qed.

Lemma btoa_strip bs :
  Forall is_byte bs ->
  strip_padding (btoa_bytes bs) = map b64_char (sextets_of_bytes bs).
Proof.
  induction bs as [|a|a b|a b c l IH] using list_ind3; intros H; split_bytes.
  - reflexivity.
  - destruct (byte_bits a) as (_ & Hs & _); [assumption|].
    destruct (b64_char_plain _ Hs) as [Hp _].
    cbn. now rewrite ?Ascii.eqb_refl, ?Hp.
  - destruct (byte_bits b) as (_ & _ & Hs & _); [assumption|].
    destruct (b64_char_plain _ Hs) as [Hp _].
    cbn. now rewrite ?Ascii.eqb_refl, ?Hp.
  - destruct (byte_bits c) as (_ & _ & _ & Hs & _); [assumption|].
    destruct (b64_char_plain _ Hs) as [Hp _].
    cbn [btoa_bytes sextets_of_bytes map].
    rewrite strip_padding_group by exact Hp. now rewrite IH.
Qed.

Lemma btoa_plain bs :
  Forall is_byte bs ->
  filter (fun c => negb (is_ascii_whitespace c)) (btoa_bytes bs) = btoa_bytes bs.
Proof.
  assert (K : forall s l, is_sextet s ->
            filter (fun c => negb (is_ascii_whitespace c)) (b64_char s :: l)
            = b64_char s :: filter (fun c => negb (is_ascii_whitespace c)) l).
  { intros s l Hs. destruct (b64_char_plain _ Hs) as [_ Hw]. cbn. now rewrite Hw. }
  induction bs as [|a|a b|a b c l IH] using list_ind3; intros H; split_bytes.
  - reflexivity.
  - destruct (byte_bits a) as (? & ? & _); [assumption|].
    cbn [btoa_bytes]. rewrite !K by assumption. reflexivity.
  - destruct (byte_bits a) as (? & _); [assumption|].
    destruct (byte_bits b) as (_ & _ & ? & _); [assumption|].
    destruct (pair_bits a b) as (? & _); [assumption..|].
    cbn [btoa_bytes]. rewrite !K by assumption. reflexivity.
  - destruct (byte_bits a) as (? & _); [assumption|].
    destruct (byte_bits c) as (_ & _ & _ & ? & _); [assumption|].
    destruct (pair_bits a b) as (? & _); [assumption..|].
    destruct (pair_bits b c) as (_ & ? & _); [assumption..|].
    cbn [btoa_bytes]. rewrite !K by assumption. now rewrite IH.
Qed.

Lemma btoa_length bs : Z.of_nat (length (btoa_bytes bs)) mod 4 = 0.
Proof.
  induction bs as [|a|a b|a b c l IH] using list_ind3; try reflexivity.
  cbn [btoa_bytes length]. rewrite !Nat2Z.inj_succ.
  Z.div_mod_to_equations. lia.
Qed.

Lemma sextets_length bs : Z.of_nat (length (sextets_of_bytes bs)) mod 4 <> 1.
Proof.
  induction bs as [|a|a b|a b c l IH] using list_ind3; try (cbn; discriminate).
  cbn [sextets_of_bytes length]. rewrite !Nat2Z.inj_succ.
  Z.div_mod_to_equations. lia.
Qed.

Lemma charCode_fromCharCode b : is_byte b -> charCode (fromCharCode b) = b.
Proof.
  intros Hb. unfold charCode, fromCharCode, is_byte in *.
  rewrite Z.mod_small by lia.
  rewrite N_ascii_embedding by lia. lia.
Qed.

Lemma binary_of_bytes (f : Z -> ascii) bytes acc :
  fold_left (fun acc b => (acc +:+ String (f b) EmptyString)%string) bytes acc
  = (acc +:+ string_of_list_ascii (map f bytes))%string.
Proof.
  revert acc. induction bytes as [|b bytes IH]; intros acc.
  - cbn. now rewrite append_empty_r.
  - cbn [fold_left map string_of_list_ascii]. rewrite IH, append_assoc. reflexivity.
Qed.

Lemma encode_btoa bytes :
  Forall is_byte bytes -> encode bytes = string_of_list_ascii (btoa_bytes bytes).
Proof.
  intros H. unfold encode, btoa. rewrite binary_of_bytes.
  change (("" +:+ ?s)%string) with s.
  rewrite list_ascii_of_string_of_list_ascii, map_map.
  f_equal. f_equal. rewrite <- (map_id bytes) at 2.
  apply map_ext_in. intros b Hb. apply charCode_fromCharCode.
  rewrite Forall_forall in H. apply H. now apply list_elem_of_In.
Qed.

(** Decoding what [encode] produced gives the bytes back. *)
Lemma decode_encode bytes :
  Forall is_byte bytes -> decode (encode bytes) = Ok bytes.
Proof.
  intros H. rewrite (encode_btoa _ H). unfold decode, atob.
  rewrite list_ascii_of_string_of_list_ascii, (btoa_plain _ H), btoa_length.
  cbn [Z.eqb]. rewrite (btoa_strip _ H).
  rewrite length_map.
  destruct (Z.eqb_spec (Z.of_nat (length (sextets_of_bytes bytes)) mod 4) 1) as [E|_];
    [now apply sextets_length in E|].
  rewrite (sextets_of_chars _ (sextets_in_range _ H)), (bytes_of_sextets_of_bytes _ H).
  cbn. rewrite list_ascii_of_string_of_list_ascii, map_map. f_equal.
  rewrite <- (map_id bytes) at 2.
  apply map_ext_in. intros b Hb. apply charCode_fromCharCode.
  rewrite Forall_forall in H. apply H. now apply list_elem_of_In.
Qed.

(** ** PCM samples *)

(** Packing a 16-bit sample into two bytes and reading it back. *)
Lemma int16_bits v :
  is_int16 v ->
  is_byte (Z.land v 255) /\ is_byte (Z.land (Z.shiftr v 8) 255)
  /\ int16_of_pair (Z.land v 255) (Z.land (Z.shiftr v 8) 255) = v.
Proof.
  intros Hv. unfold is_int16, is_byte, int16_of_pair in *.
  change 255 with (Z.ones 8).
  rewrite !Z.land_ones, Z.shiftr_div_pow2 by lia.
  change (2 ^ 8) with 256.
  destruct (Z.ltb_spec (v mod 256 + 256 * ((v / 256) mod 256)) 32768);
    Z.div_mod_to_equations; lia.
Qed.

Lemma wrap16_range n : is_int16 (wrap16 n).
Proof.
  unfold wrap16, is_int16. pose proof (Z.mod_pos_bound n 65536 eq_refl).
  destruct (Z.ltb_spec (n mod 65536) 32768); lia.
Qed.

Lemma wrap16_small n : is_int16 n -> wrap16 n = n.
Proof.
  unfold wrap16, is_int16. intros H.
  destruct (Z.ltb_spec (n mod 65536) 32768); Z.div_mod_to_equations; lia.
Qed.

Lemma ToInt16_range x : is_int16 (ToInt16 x).
Proof. destruct x; cbn; [apply wrap16_range|unfold is_int16; lia]. Qed.

Lemma pcm16_range inputData : Forall is_int16 (pcm16 inputData).
Proof.
  unfold pcm16. apply Forall_forall. intros v Hv.
  apply list_elem_of_In, in_map_iff in Hv as [x [<- _]]. apply ToInt16_range.
Qed.

Lemma packed_bytes l : Forall is_int16 l -> Forall is_byte (Uint8Array_of_int16 l).
Proof.
  induction 1 as [|v l Hv _ IH]; [constructor|].
  destruct (int16_bits v Hv) as (H1 & H2 & _).
  cbn. repeat (constructor; [assumption|]). exact IH.
Qed.

Lemma unpack_packed l :
  Forall is_int16 l -> Int16Array_of_buffer (Uint8Array_of_int16 l) = Ok l.
Proof.
  intros H. unfold Int16Array_of_buffer.
  assert (Hlen : Z.odd (Z.of_nat (length (Uint8Array_of_int16 l))) = false).
  { clear H. induction l as [|v l IH]; [reflexivity|].
    cbn [Uint8Array_of_int16 flat_map bytes_of_int16 app length].
    fold (Uint8Array_of_int16 l).
    rewrite !Nat2Z.inj_succ, <- Z.add_1_r, <- Z.add_1_r, <- Z.add_assoc.
    change (1 + 1) with (2 * 1). now rewrite Z.odd_add_mul_2. }
  rewrite Hlen. clear Hlen. f_equal.
  induction H as [|v l Hv _ IH]; [reflexivity|].
  destruct (int16_bits v Hv) as (_ & _ & E).
  cbn [Uint8Array_of_int16 flat_map bytes_of_int16 app int16_pairs].
  fold (Uint8Array_of_int16 l). now rewrite E, IH.
Qed.

(** A sample in [-1, 1) is scaled and truncated, nothing more. *)
Lemma in_range_sample q :
  (-1 <= q)%Q -> (q < 1)%Q -> ToInt16 (times_32768 (Finite q)) = trunc (q * 32768).
Proof.
  intros Hlo Hhi. cbn [times_32768 ToInt16]. apply wrap16_small.
  unfold trunc, is_int16. destruct q as [n d].
  unfold Qle, Qlt in *. cbn in *.
  assert (Hd : Z.pos (d * 1) = Z.pos d) by lia. rewrite Hd.
  Z.quot_rem_to_equations. nia.
Qed.

(** ** The capture pipeline *)

(** C9 (as amended): for every captured block, each sample is converted on
    its own, in order: a finite sample is scaled by 32768, truncated and
    wrapped into 16 bits, with no clamping (a sample in [-1, 1) is only
    scaled and truncated; the sample 1.0 wraps to -32768). The block is
    packed low byte first and encoded in base64, so that decoding the data
    gives the 16-bit samples back, and it is handed to the channel, through
    the connection promise, tagged [audio/pcm;rate=16000]. *)
Theorem capture_block_is_sent_as_pcm inputData a att w :
  let blob := pcmBlob inputData in
  mimeType blob = "audio/pcm;rate=16000"
  /\ (bytes ← decode (data blob); Int16Array_of_buffer bytes) = Ok (pcm16 inputData)
  /\ (forall (i : nat) x, inputData !! i = Some x ->
        pcm16 inputData !! i
        = Some (match x with
                | Finite q => wrap16 (trunc (q * 32768))
                | NonFinite => 0
                end))
  /\ (forall q, (-1 <= q)%Q -> (q < 1)%Q ->
        ToInt16 (times_32768 (Finite q)) = trunc (q * 32768))
  /\ ToInt16 (times_32768 (Finite 1)) = -32768
  /\ (sessionPromise att = Resolved ->
        effects (component (onaudioprocess a inputData att w))
        = effects (component w) ++ [SendRealtimeInput a blob])
  /\ (forall waiting, sessionPromise att = Pending waiting ->
        component (onaudioprocess a inputData att w) = component w
        /\ attempts (onaudioprocess a inputData att w)
           = <[a := set_control (pc att) (Pending (waiting ++ [blob])) (opened att) att]>
               (attempts w)).
Proof.
  cbn zeta. split; [reflexivity|]. split; [|split; [|split; [|split; [|split]]]].
  - unfold pcmBlob. cbn [data]. fold (pcm16 inputData).
    pose proof (pcm16_range inputData) as Hr.
    rewrite (decode_encode _ (packed_bytes _ Hr)).
    exact (unpack_packed _ Hr).
  - intros i x Hx. unfold pcm16. rewrite list_lookup_fmap, Hx. cbn.
    destruct x; reflexivity.
  - exact in_range_sample.
  - reflexivity.
  - intros Hp. unfold onaudioprocess, then_send. rewrite Hp. reflexivity.
  - intros waiting Hp. unfold onaudioprocess, then_send. rewrite Hp. split; reflexivity.
Qed.

Lemma capture_block_is_sent_as_pcm_witness :
  sessionPromise (fst ready) = Resolved
  /\ effects (component (onaudioprocess 0 [Finite 1; Finite (1 # 2)] (fst ready) ready_world))
     = effects (component ready_world)
       ++ [SendRealtimeInput 0 (pcmBlob [Finite 1; Finite (1 # 2)])]
  /\ (-1 <= 1 # 2)%Q /\ (1 # 2 < 1)%Q
  /\ ToInt16 (times_32768 (Finite (1 # 2))) = trunc ((1 # 2) * 32768).
Proof.
  assert (H1 : sessionPromise (fst ready) = Resolved) by reflexivity.
  assert (H2 : (-1 <= 1 # 2)%Q) by (vm_compute; discriminate).
  assert (H3 : (1 # 2 < 1)%Q) by reflexivity.
  destruct (capture_block_is_sent_as_pcm [Finite 1; Finite (1 # 2)] 0 (fst ready) ready_world)
    as (_ & _ & _ & Hs & _ & Hsend & _).
  split; [exact H1|]. split; [exact (Hsend H1)|].
  split; [exact H2|]. split; [exact H3|]. exact (Hs _ H2 H3).
Defined.

(** C9, as stated, fails on the tag: the blob is tagged
    [audio/pcm;rate=16000], not [audio/pcm16;rate=16000]. *)
Lemma capture_tag_is_not_pcm16 :
  mimeType (pcmBlob [Finite (1 # 2)]) <> "audio/pcm16;rate=16000".
Proof. vm_compute. discriminate. Qed.

(** * Further properties *)

(** ** The codec helpers *)

Lemma charCode_fromCharCode_mod b : charCode (fromCharCode b) = b mod 256.
Proof.
  unfold charCode, fromCharCode.
  pose proof (Z.mod_pos_bound b 256 eq_refl) as H.
  rewrite N_ascii_embedding by lia. lia.
Qed.

Lemma encode_btoa_mod bytes :
  encode bytes = string_of_list_ascii (btoa_bytes (map (fun b => b mod 256) bytes)).
Proof.
  unfold encode, btoa. rewrite binary_of_bytes.
  change (("" +:+ ?s)%string) with s.
  rewrite list_ascii_of_string_of_list_ascii, map_map.
  f_equal. f_equal. apply map_ext. intros b. apply charCode_fromCharCode_mod.
Qed.

Lemma mod_bytes bytes : Forall is_byte (map (fun b => b mod 256) bytes).
Proof.
  apply Forall_forall. intros x Hx.
  apply list_elem_of_In, in_map_iff in Hx as [b [<- _]].
  unfold is_byte. apply Z.mod_pos_bound. reflexivity.
Qed.

Lemma string_length_of_list l : String.length (string_of_list_ascii l) = length l.
Proof. induction l as [|c l IH]; cbn; [reflexivity|now rewrite IH]. Qed.

Lemma btoa_bytes_length bs :
  Z.of_nat (length (btoa_bytes bs)) = 4 * ((Z.of_nat (length bs) + 2) / 3).
Proof.
  induction bs as [|a|a b|a b c l IH] using list_ind3; try reflexivity.
  cbn [btoa_bytes length]. rewrite !Nat2Z.inj_succ.
  Z.div_mod_to_equations. lia.
Qed.

Lemma b64_char_text_safe s :
  is_sextet s ->
  is_text_safe (b64_char s) = true /\ is_ascii_whitespace (b64_char s) = false.
Proof.
  intros Hs. unfold is_text_safe. rewrite (b64_char_index s Hs).
  split; [reflexivity|]. apply (b64_char_plain s Hs).
Qed.

Lemma btoa_bytes_text_safe bs :
  Forall is_byte bs ->
  Forall (fun c => is_text_safe c = true /\ is_ascii_whitespace c = false) (btoa_bytes bs).
Proof.
  assert (Hpad : is_text_safe pad_char = true /\ is_ascii_whitespace pad_char = false)
    by (split; reflexivity).
  induction bs as [|a|a b|a b c l IH] using list_ind3; intros H; split_bytes.
  - constructor.
  - destruct (byte_bits a) as (? & ? & _); [assumption|].
    cbn [btoa_bytes]. repeat (constructor; [first [exact Hpad|now apply b64_char_text_safe]|]).
    constructor.
  - destruct (byte_bits a) as (? & _); [assumption|].
    destruct (byte_bits b) as (_ & _ & ? & _); [assumption|].
    destruct (pair_bits a b) as (? & _); [assumption..|].
    cbn [btoa_bytes]. repeat (constructor; [first [exact Hpad|now apply b64_char_text_safe]|]).
    constructor.
  - destruct (byte_bits a) as (? & _); [assumption|].
    destruct (byte_bits c) as (_ & _ & _ & ? & _); [assumption|].
    destruct (pair_bits a b) as (? & _); [assumption..|].
    destruct (pair_bits b c) as (_ & ? & _); [assumption..|].
    cbn [btoa_bytes]. repeat (constructor; [now apply b64_char_text_safe|]).
    now apply IH.
Qed.

(** X1: decoding what [encode] produced gives the bytes back, for every
    sequence of bytes, the empty one included; so [encode] never maps two
    byte sequences to the same text. *)
Theorem base64_round_trip bytes :
  Forall is_byte bytes ->
  decode (encode bytes) = Ok bytes
  /\ forall other, Forall is_byte other -> encode other = encode bytes -> other = bytes.
Proof.
  intros H. split; [now apply decode_encode|].
  intros other Ho E. apply (f_equal decode) in E.
  rewrite (decode_encode _ H), (decode_encode _ Ho) in E. congruence.
Qed.

Lemma base64_round_trip_witness :
  Forall is_byte [72; 105; 255]
  /\ decode (encode [72; 105; 255]) = Ok [72; 105; 255]
  /\ Forall is_byte []
  /\ decode (encode []) = Ok [].
Proof.
  assert (H1 : Forall is_byte [72; 105; 255])
    by (repeat (constructor; [unfold is_byte; lia|]); constructor).
  assert (H2 : Forall is_byte []) by constructor.
  split; [exact H1|]. split; [exact (proj1 (base64_round_trip _ H1))|].
  split; [exact H2|]. exact (proj1 (base64_round_trip _ H2)).
Defined.

(** X2: whatever the bytes, the text [encode] returns has four characters
    for every group of three bytes, the last group rounded up, and every
    character is a letter of the base64 alphabet or the padding character;
    none is whitespace. *)
Theorem encode_is_text_safe bytes :
  Z.of_nat (String.length (encode bytes)) = 4 * ((Z.of_nat (length bytes) + 2) / 3)
  /\ Forall (fun c => is_text_safe c = true /\ is_ascii_whitespace c = false)
            (list_ascii_of_string (encode bytes)).
Proof.
  rewrite encode_btoa_mod, string_length_of_list, list_ascii_of_string_of_list_ascii.
  split.
  - rewrite btoa_bytes_length, length_map. reflexivity.
  - apply btoa_bytes_text_safe, mod_bytes.
Qed.

(** ** Decoding audio *)

Lemma int16_of_pair_range lo hi :
  is_byte lo -> is_byte hi -> is_int16 (int16_of_pair lo hi).
Proof.
  unfold is_byte, is_int16, int16_of_pair. intros Hl Hh.
  destruct (Z.ltb_spec (lo + 256 * hi) 32768); lia.
Qed.

Lemma int16_pairs_spec bytes :
  Forall is_byte bytes ->
  Forall is_int16 (int16_pairs bytes)
  /\ (Z.odd (Z.of_nat (length bytes)) = false ->
      (2 * length (int16_pairs bytes) = length bytes)%nat).
Proof.
  assert (H : forall bs, (Forall is_byte bs ->
             Forall is_int16 (int16_pairs bs)
             /\ (Z.odd (Z.of_nat (length bs)) = false ->
                 (2 * length (int16_pairs bs) = length bs)%nat))
            /\ forall b, Forall is_byte (b :: bs) ->
                 Forall is_int16 (int16_pairs (b :: bs))
                 /\ (Z.odd (Z.of_nat (length (b :: bs))) = false ->
                     (2 * length (int16_pairs (b :: bs)) = length (b :: bs))%nat)).
  { induction bs as [|x bs [IH0 IH1]].
    - split; [intros _; split; [constructor|reflexivity]|].
      intros b _. split; [constructor|]. cbn. discriminate.
    - split; [exact (IH1 x)|]. intros b Hb.
      apply Forall_cons_1 in Hb as [Hb Hx]. pose proof Hx as Hx'.
      apply Forall_cons_1 in Hx as [Hx Hbs].
      destruct (IH0 Hbs) as [Hr Hl]. split.
      + cbn [int16_pairs]. constructor; [now apply int16_of_pair_range|exact Hr].
      + cbn [int16_pairs length]. rewrite !Nat2Z.inj_succ, <- Z.add_1_r, <- Z.add_1_r,
          <- Z.add_assoc. change (1 + 1) with (2 * 1). rewrite Z.odd_add_mul_2.
        intros E. specialize (Hl E). lia. }
  intros Hb. now apply (H bytes).
Qed.

Lemma sample_of_int16_range v :
  is_int16 v -> (-1 <= sample_of_int16 v)%Q /\ (sample_of_int16 v < 1)%Q.
Proof.
  unfold is_int16, sample_of_int16, Qle, Qlt, Qdiv, Qmult, Qinv, inject_Z. cbn.
  intros H. lia.
Qed.

(** X3: [decodeAudioData] on raw bytes. A buffer of odd length is refused
    with a RangeError and an empty one with a NotSupportedError; any other
    buffer gives one frame for every two bytes, lasting that many
    24000ths of a second, with every sample in [-1, 1). *)
Theorem decodeAudioData_frames data :
  Forall is_byte data ->
  (Z.odd (Z.of_nat (length data)) = true ->
   decodeAudioData data 24000 = Throw RangeError)
  /\ (data = [] -> decodeAudioData data 24000 = Throw NotSupportedError)
  /\ (Z.odd (Z.of_nat (length data)) = false -> data <> [] ->
      exists buffer,
        decodeAudioData data 24000 = Ok buffer
        /\ (2 * length (channelData buffer) = length data)%nat
        /\ (duration buffer == inject_Z (Z.of_nat (length data)) / 48000)%Q
        /\ Forall (fun s => (-1 <= s)%Q /\ (s < 1)%Q) (channelData buffer)).
Proof.
  intros Hb. split; [|split].
  - intros Ho. unfold decodeAudioData, Int16Array_of_buffer. now rewrite Ho.
  - intros ->. reflexivity.
  - intros He Hne. destruct (int16_pairs_spec data Hb) as [Hr Hl].
    specialize (Hl He).
    unfold decodeAudioData, Int16Array_of_buffer. rewrite He.
    destruct (int16_pairs data) as [|v l] eqn:E.
    { destruct data; [congruence|cbn in Hl; lia]. }
    change (Ok (v :: l) ≫= _) with
      (Ok (A:=AudioBuffer)
          {| sampleRate := 24000; channelData := map sample_of_int16 (v :: l) |}).
    eexists. split; [reflexivity|].
    cbn [channelData sampleRate].
    assert (Hm : length (map sample_of_int16 (v :: l)) = length (v :: l))
      by apply List.length_map.
    rewrite Hm. split; [exact Hl|]. split.
    + unfold duration. cbn [channelData sampleRate]. rewrite Hm, <- Hl. unfold Qeq, Qdiv, Qmult, Qinv, inject_Z. cbn [Qnum Qden].
      rewrite Nat2Z.inj_mul. cbn. lia.
    + apply Forall_forall. intros s Hs.
      apply list_elem_of_In, in_map_iff in Hs as [x [<- Hx]].
      apply (sample_of_int16_range x).
      rewrite Forall_forall in Hr. apply Hr. now apply list_elem_of_In.
Qed.

Lemma decodeAudioData_frames_witness :
  Forall is_byte [0; 64; 0; 128]
  /\ Z.odd (Z.of_nat (length [0; 64; 0; 128])) = false
  /\ [0; 64; 0; 128] <> []
  /\ (exists buffer, decodeAudioData [0; 64; 0; 128] 24000 = Ok buffer
                     /\ (2 * length (channelData buffer) = 4)%nat)
  /\ Z.odd (Z.of_nat (length [0; 64; 0])) = true
  /\ decodeAudioData [0; 64; 0] 24000 = Throw RangeError.
Proof.
  assert (H1 : Forall is_byte [0; 64; 0; 128])
    by (repeat (constructor; [unfold is_byte; lia|]); constructor).
  assert (H2 : [0; 64; 0; 128] <> []) by discriminate.
  assert (H3 : Forall is_byte [0; 64; 0])
    by (repeat (constructor; [unfold is_byte; lia|]); constructor).
  split; [exact H1|]. split; [reflexivity|]. split; [exact H2|]. split.
  - destruct (proj2 (proj2 (decodeAudioData_frames _ H1)) eq_refl H2)
      as (buffer & E & Hl & _).
    exists buffer. split; [exact E|exact Hl].
  - split; [reflexivity|]. exact (proj1 (decodeAudioData_frames _ H3) eq_refl).
Defined.

(** X4: the playback path undoes the capture path. For every non-empty
    captured block, decoding the data of its blob and handing the bytes to
    [decodeAudioData] gives a buffer with one frame per captured sample,
    each the 16-bit value of the sample divided by 32768. *)
Theorem capture_then_playback inputData :
  inputData <> [] ->
  (bytes ← decode (data (pcmBlob inputData)); decodeAudioData bytes 24000)
  = Ok {| sampleRate := 24000;
          channelData := map (fun x => sample_of_int16 (ToInt16 (times_32768 x)))
                             inputData |}.
Proof.
  intros Hne. unfold pcmBlob. cbn [data]. fold (pcm16 inputData).
  pose proof (pcm16_range inputData) as Hr.
  rewrite (decode_encode _ (packed_bytes _ Hr)).
  change (Ok ?b ≫= ?k) with (k b). cbv beta.
  unfold decodeAudioData. rewrite (unpack_packed _ Hr).
  change (Ok ?b ≫= ?k) with (k b). cbv beta.
  destruct inputData as [|x l]; [congruence|].
  unfold pcm16. cbn [map length createBuffer].
  change (Ok ?b ≫= ?k) with (k b). cbv beta.
  rewrite map_map. reflexivity.
Qed.

Lemma capture_then_playback_witness :
  [Finite (1 # 2); NonFinite] <> []
  /\ (bytes ← decode (data (pcmBlob [Finite (1 # 2); NonFinite]));
      decodeAudioData bytes 24000)
     = Ok {| sampleRate := 24000;
             channelData := [sample_of_int16 16384; sample_of_int16 0] |}.
Proof.
  assert (H : [Finite (1 # 2); NonFinite] <> []) by discriminate.
  split; [exact H|]. exact (capture_then_playback _ H).
Defined.

(** X5: quantisation. A finite sample in [-1, 1) comes back from the
    16-bit conversion within one step (1/32768) of its value, and never
    further from zero than it was. *)
Theorem quantisation_error_below_one_step q :
  (-1 <= q)%Q -> (q < 1)%Q ->
  let r := sample_of_int16 (ToInt16 (times_32768 (Finite q))) in
  (q - (1 # 32768) < r)%Q /\ (r < q + (1 # 32768))%Q
  /\ ((0 <= q)%Q -> (0 <= r)%Q /\ (r <= q)%Q)
  /\ ((q <= 0)%Q -> (q <= r)%Q /\ (r <= 0)%Q).
Proof.
  intros Hlo Hhi. cbn zeta. rewrite (in_range_sample q Hlo Hhi).
  unfold sample_of_int16, trunc. destruct q as [n d].
  unfold Qle, Qlt, Qminus, Qplus, Qopp, Qdiv, Qmult, Qinv, inject_Z in *.
  cbn in *.
  assert (Hd : Z.pos (d * 1) = Z.pos d) by lia. rewrite Hd.
  assert (Hd2 : Z.pos (d * 32768) = Z.pos d * 32768) by lia. rewrite ?Hd2.
  Z.quot_rem_to_equations. nia.
Qed.

Lemma quantisation_error_below_one_step_witness :
  (-1 <= 1 # 3)%Q /\ (1 # 3 < 1)%Q
  /\ ((1 # 3) - (1 # 32768)
      < sample_of_int16 (ToInt16 (times_32768 (Finite (1 # 3)))))%Q.
Proof.
  assert (H1 : (-1 <= 1 # 3)%Q) by (vm_compute; discriminate).
  assert (H2 : (1 # 3 < 1)%Q) by reflexivity.
  split; [exact H1|]. split; [exact H2|].
  exact (proj1 (quantisation_error_below_one_step (1 # 3) H1 H2)).
Defined.

(** ** The inbound router, further *)

(** X6: the end of a turn, whatever React does with the updaters. With
    nothing queued before, a turn-complete signal followed by a render
    adds one entry for each non-empty pending buffer, the user's before
    the assistant's, and no entry when both are empty; both buffers are
    empty afterwards. *)
Theorem turn_complete_adds_entries_in_order a t att c table now :
  updateQueue c = [] ->
  let s' := final_state (onmessage a t turn_complete_signal (att, c)) in
  table !! a = Some (fst s') ->
  map role (transcriptions (render table now (snd s')))
  = map role (transcriptions c)
    ++ (if truthy_string (currentInText att) then [user] else [])
    ++ (if truthy_string (currentOutText att) then [assistant] else [])
  /\ currentInText (fst s') = "" /\ currentOutText (fst s') = "".
Proof. exact (turn_complete_roles_in_order a t att c table now). Qed.

Lemma turn_complete_adds_entries_in_order_witness :
  updateQueue (snd ready) = []
  /\ map role (transcriptions
       (render [set_texts "" "" (fst ready)] 9
          (snd (final_state (onmessage 0 (tick_at 0) turn_complete_signal
                               (set_texts "Hello" "Hi" (fst ready), snd ready))))))
     = map role (transcriptions (snd ready)) ++ [user] ++ [assistant].
Proof.
  assert (H1 : updateQueue (snd ready) = []) by reflexivity.
  split; [exact H1|].
  exact (proj1 (turn_complete_adds_entries_in_order 0 (tick_at 0)
                  (set_texts "Hello" "Hi" (fst ready)) (snd ready)
                  [set_texts "" "" (fst ready)] 9 H1 eq_refl)).
Defined.

(** X7: a message without a model turn is always handled to the end. It
    starts no source, and leaves the cursor where it was unless the
    message is an interruption; a message without any server content
    changes nothing at all. *)
Theorem message_without_model_turn_is_handled a t m att c :
  content_field Live.modelTurn m = None ->
  (exists att' c',
      onmessage a t m (att, c) = Fulfilled (att', c')
      /\ effects c' = effects c
      /\ nextStartTimeRef c'
         = if is_interruption m then 0%Q else nextStartTimeRef c)
  /\ (Live.serverContent m = None -> onmessage a t m (att, c) = Fulfilled (att, c)).
Proof.
  intros Hm. split.
  - pose proof (onmessage_playback a t m att c) as [Hc He]. cbn zeta in Hc, He.
    unfold cursor_after, sources_of, audio_outcome in Hc, He.
    unfold onmessage in *. cbn [fst snd] in *.
    destruct (flush_turn a t m (append_fragment m att, c)) as [att1 c1].
    unfold audioData_of in *. rewrite Hm in *. cbn [final_state snd] in *.
    exists att1, (interrupt m c1). split; [reflexivity|].
    rewrite app_nil_r in He. split; assumption.
  - intros Hs. unfold onmessage, flush_turn, append_fragment, audioData_of,
      interrupt, content_field.
    rewrite Hs. cbn. reflexivity.
Qed.

Lemma message_without_model_turn_is_handled_witness :
  content_field Live.modelTurn (input_fragment "Hi") = None
  /\ exists att' c',
       onmessage 0 (tick_at 3) (input_fragment "Hi") ready = Fulfilled (att', c')
       /\ effects c' = effects (snd ready).
Proof.
  assert (H : content_field Live.modelTurn (input_fragment "Hi") = None) by reflexivity.
  split; [exact H|].
  destruct (proj1 (message_without_model_turn_is_handled 0 (tick_at 3)
                     (input_fragment "Hi") (fst ready) (snd ready) H))
    as (att' & c' & E & He & _).
  exists att', c'. split; [exact E|exact He].
Defined.

(** X8: a payload that cannot be decoded. When [atob], the view as 16-bit
    samples or the creation of the buffer fails with an error, the handler
    rejects with that error after it has clamped the cursor to the clock:
    no source is started, the cursor is not advanced, and an interrupted
    flag on the same message is not acted on. The transcription part of
    the message has been applied. *)
Theorem undecodable_payload_rejects a t m e att c :
  audio_outcome m = BadAudio e ->
  exists att' c',
    onmessage a t m (att, c) = RejectedWith e (att', c')
    /\ effects c' = effects c
    /\ nextStartTimeRef c' = Math_max (nextStartTimeRef c) (currentTime t)
    /\ (att', transcriptions c', updateQueue c')
       = (let s := flush_turn a t m (append_fragment m att, c) in
          (fst s, transcriptions (snd s), updateQueue (snd s))).
Proof.
  intros Ha.
  pose proof (onmessage_playback a t m att c) as [Hc He]. cbn zeta in Hc, He.
  unfold cursor_after, sources_of in Hc, He. rewrite Ha in Hc, He.
  rewrite app_nil_r in He.
  unfold audio_outcome in Ha. unfold onmessage in *. cbn [fst snd] in *.
  destruct (flush_turn a t m (append_fragment m att, c)) as [att1 c1].
  destruct (audioData_of m) as [[d|]|e']; try discriminate.
  destruct (truthy_string d); [|discriminate].
  unfold schedule in *.
  destruct (bytes ← decode d; decodeAudioData bytes 24000) as [b|e'];
    [discriminate|].
  injection Ha as <-. cbn [final_state snd fst] in *.
  eexists. eexists. split; [reflexivity|]. split; [exact He|]. split; [exact Hc|].
  reflexivity.
Qed.

Lemma undecodable_payload_rejects_witness :
  audio_outcome (audio_payload "A") = BadAudio InvalidCharacterError
  /\ audio_outcome (audio_payload "AA==") = BadAudio RangeError
  /\ exists att' c',
       onmessage 0 (tick_at 3) (audio_payload "AA==") ready
       = RejectedWith RangeError (att', c')
       /\ effects c' = effects (snd ready).
Proof.
  assert (H1 : audio_outcome (audio_payload "A") = BadAudio InvalidCharacterError)
    by reflexivity.
  assert (H2 : audio_outcome (audio_payload "AA==") = BadAudio RangeError)
    by reflexivity.
  split; [exact H1|]. split; [exact H2|].
  destruct (undecodable_payload_rejects 0 (tick_at 3) (audio_payload "AA==")
              RangeError (fst ready) (snd ready) H2) as (att' & c' & E & He & _).
  exists att', c'. split; [exact E|exact He].
Defined.

(** X10: the cursor moves backwards only on an interruption. After any
    message that is not an interruption, decodable or not, the cursor is
    at least what it was; and when the message started a source, the
    cursor is past the clock reading of the message. *)
Theorem cursor_only_goes_back_on_interruption a t m att c :
  is_interruption m = false ->
  let c' := snd (final_state (onmessage a t m (att, c))) in
  (nextStartTimeRef c <= nextStartTimeRef c')%Q
  /\ (forall b, audio_outcome m = Audio b ->
        (currentTime t < nextStartTimeRef c')%Q).
Proof.
  intros Hi. cbn zeta.
  pose proof (onmessage_playback a t m att c) as [Hc _]. cbn zeta in Hc.
  rewrite Hc. unfold cursor_after. rewrite Hi.
  pose proof (Math_max_ge_l (nextStartTimeRef c) (currentTime t)) as Hl.
  pose proof (Math_max_ge_r (nextStartTimeRef c) (currentTime t)) as Hr.
  split.
  - destruct (audio_outcome m) as [| | |b] eqn:E; try lra.
    pose proof (audio_duration_pos m b E). lra.
  - intros b E. rewrite E. pose proof (audio_duration_pos m b E). lra.
Qed.

Lemma cursor_only_goes_back_on_interruption_witness :
  is_interruption (audio_payload "AAA") = false
  /\ (nextStartTimeRef (snd ready)
      <= nextStartTimeRef (snd (final_state
           (onmessage 0 (tick_at 3) (audio_payload "AAA") ready))))%Q.
Proof.
  assert (H : is_interruption (audio_payload "AAA") = false) by reflexivity.
  split; [exact H|].
  exact (proj1 (cursor_only_goes_back_on_interruption 0 (tick_at 3)
                  (audio_payload "AAA") (fst ready) (snd ready) H)).
Defined.



(** ** Teardown, further *)

Lemma context_closed_app x l1 l2 :
  context_closed x (l1 ++ l2) = context_closed x l1 || context_closed x l2.
Proof. unfold context_closed. apply existsb_app. Qed.

Lemma ctx_eqb_refl x : ctx_eqb x x = true.
Proof. destruct x; cbn; apply Nat.eqb_refl. Qed.

Lemma close_context_closes x c : context_closed x (effects (close_context x c)) = true.
Proof.
  unfold close_context, perform. cbn [effects]. rewrite context_closed_app.
  destruct (context_closed x (effects c)) eqn:E; [reflexivity|].
  cbn. now rewrite ctx_eqb_refl.
Qed.

Lemma context_closed_perform x e c :
  context_closed x (effects c) = true -> context_closed x (effects (perform e c)) = true.
Proof.
  intros H. unfold perform. cbn [effects]. rewrite context_closed_app, H. reflexivity.
Qed.

(** What [stopSession] adds to the trace, read off the refs. *)
Lemma stopSession_effects c :
  effects (stopSession c)
  = effects c
    ++ match sessionRef c with Some s => [SessionClose s] | None => [] end
    ++ match streamRef c with Some s => [TracksStop s] | None => [] end
    ++ match frameIntervalRef c with Some i => [ClearInterval i] | None => [] end
    ++ (match audioContextInRef c with
        | Some x => [ContextClose (audioCtxIn x)
                       (negb (context_closed (audioCtxIn x) (effects c)))]
        | None => []
        end)
    ++ (match audioContextOutRef c with
        | Some x => [ContextClose (audioCtxOut x)
                       (negb (context_closed (audioCtxOut x) (effects c)))]
        | None => []
        end).
Proof.
  destruct c as [ia ic tr uq sr st ai ao ns fi ef].
  unfold stopSession, close_context.
  destruct sr, st, fi, ai, ao;
    cbn [set_flags perform sessionRef streamRef frameIntervalRef audioContextInRef
         audioContextOutRef effects set_sessionRef];
    rewrite ?context_closed_app;
    repeat match goal with
           | |- context [context_closed ?x ef] => destruct (context_closed x ef)
           end;
    cbn; rewrite <- ?app_assoc; cbn [app]; rewrite ?app_nil_r; reflexivity.
Qed.

Lemma stopSession_refs c :
  streamRef (stopSession c) = streamRef c
  /\ frameIntervalRef (stopSession c) = frameIntervalRef c
  /\ audioContextInRef (stopSession c) = audioContextInRef c
  /\ audioContextOutRef (stopSession c) = audioContextOutRef c
  /\ nextStartTimeRef (stopSession c) = nextStartTimeRef c
  /\ transcriptions (stopSession c) = transcriptions c
  /\ updateQueue (stopSession c) = updateQueue c.
Proof.
  destruct c as [ia ic tr uq sr st ai ao ns fi ef].
  unfold stopSession, close_context.
  destruct sr, st, fi, ai, ao; cbn; repeat split; reflexivity.
Qed.

Lemma stopSession_guarantees c :
  let c' := stopSession c in
  isActive c' = false /\ isConnecting c' = false /\ sessionRef c' = None
  /\ (forall s, sessionRef c = Some s -> In (SessionClose s) (effects c'))
  /\ (forall s, streamRef c = Some s -> In (TracksStop s) (effects c'))
  /\ (forall i, frameIntervalRef c = Some i -> In (ClearInterval i) (effects c'))
  /\ (forall x, audioContextInRef c = Some x ->
        context_closed (audioCtxIn x) (effects c') = true)
  /\ (forall x, audioContextOutRef c = Some x ->
        context_closed (audioCtxOut x) (effects c') = true)
  /\ (exists added, effects c' = effects c ++ added
                    /\ forallb is_teardown_effect added = true)
  /\ transcriptions c' = transcriptions c
  /\ nextStartTimeRef c' = nextStartTimeRef c
  /\ filter is_session_close (effects (stopSession c'))
     = filter is_session_close (effects c').
Proof.
  cbn zeta.
  destruct (stopSession_clears_handle c) as (Hs & Ha & Hc).
  destruct (stopSession_refs c) as (_ & _ & _ & _ & Hn & Ht & _).
  split; [exact Ha|]. split; [exact Hc|]. split; [exact Hs|].
  split; [|split; [|split; [|split; [|split; [|split; [|split; [|split]]]]]]].
  - intros s E. rewrite stopSession_effects, E.
    apply in_or_app. right. left. reflexivity.
  - intros s E. rewrite stopSession_effects, E.
    apply in_or_app. right. apply in_or_app. right. left. reflexivity.
  - intros i E. rewrite stopSession_effects, E.
    do 3 (apply in_or_app; right). left. reflexivity.
  - intros x E. rewrite stopSession_effects, E, !context_closed_app.
    destruct (context_closed (audioCtxIn x) (effects c)) eqn:K; [reflexivity|].
    destruct (sessionRef c), (streamRef c), (frameIntervalRef c); cbn;
      rewrite Nat.eqb_refl; reflexivity.
  - intros x E. rewrite stopSession_effects, E, !context_closed_app.
    destruct (context_closed (audioCtxOut x) (effects c)) eqn:K; [reflexivity|].
    destruct (sessionRef c), (streamRef c), (frameIntervalRef c),
      (audioContextInRef c); cbn; rewrite Nat.eqb_refl, ?orb_true_r; reflexivity.
  - eexists. split; [apply stopSession_effects|].
    destruct (sessionRef c), (streamRef c), (frameIntervalRef c),
      (audioContextInRef c), (audioContextOutRef c); reflexivity.
  - exact Ht.
  - exact Hn.
  - rewrite (stopSession_effects (stopSession c)), Hs. cbn [app].
    rewrite filter_app.
    destruct (streamRef (stopSession c)), (frameIntervalRef (stopSession c)),
      (audioContextInRef (stopSession c)), (audioContextOutRef (stopSession c));
      cbn; now rewrite app_nil_r.
Qed.



Lemma stopSession_added c :
  exists added,
    effects (stopSession c) = effects c ++ added
    /\ forallb is_teardown_effect added = true.
Proof.
  eexists. split; [apply stopSession_effects|].
  destruct (sessionRef c), (streamRef c), (frameIntervalRef c),
    (audioContextInRef c), (audioContextOutRef c); reflexivity.
Qed.

(** ** Start, further *)

Lemma catch_tears_down a att pr w :
  attempts w !! a = Some att ->
  let w' := startSession_catch a att pr w in
  isActive (component w') = false
  /\ isConnecting (component w') = false
  /\ sessionRef (component w') = None
  /\ (exists released,
        effects (component w')
        = effects (component w) ++ [ConsoleError] ++ released ++ [Alert]
        /\ forallb is_teardown_effect released = true)
  /\ (exists att', attempts w' !! a = Some att' /\ pc att' = Finished).
Proof.
  intros Hl. cbn zeta. unfold startSession_catch. cbn [component attempts].
  destruct (stopSession_clears_handle (perform ConsoleError (component w)))
    as (Hs & Ha & Hc).
  destruct (stopSession_added (perform ConsoleError (component w))) as (rel & He & Hr).
  split; [exact Ha|]. split; [exact Hc|]. split; [exact Hs|]. split.
  - exists rel. split; [|exact Hr].
    change (effects (perform Alert ?c)) with (effects c ++ [Alert]).
    rewrite He. cbn [perform effects]. now rewrite <- !app_assoc.
  - eexists. split; [apply list_lookup_insert_eq; eapply lookup_lt_Some; eauto|].
    reflexivity.
Qed.

(** X15: a start that fails. When the device request is refused, or the
    connection promise rejects, the [catch] block logs the error, tears
    the session down and alerts the user: both flags end false, the
    session handle is empty, the call of [startSession] is finished, and
    nothing is performed but the log, releases and the alert; no devices
    are requested again and no channel is opened. *)
Theorem failed_start_tears_down w a w' :
  step w (DevicesDenied a) = Some w' \/ step w (ConnectRejected a) = Some w' ->
  isActive (component w') = false
  /\ isConnecting (component w') = false
  /\ sessionRef (component w') = None
  /\ (exists released,
        effects (component w')
        = effects (component w) ++ [ConsoleError] ++ released ++ [Alert]
        /\ forallb is_teardown_effect released = true)
  /\ (exists att', attempts w' !! a = Some att' /\ pc att' = Finished).
Proof.
  unfold step. intros [H|H];
    destruct (attempts w !! a) as [att|] eqn:Hl; try discriminate; cbn in H.
  - destruct (pc att); try discriminate. injection H as <-.
    now apply catch_tears_down.
  - destruct (pc att); try discriminate.
    destruct (sessionPromise att); try discriminate. injection H as <-.
    now apply catch_tears_down.
Qed.

Lemma failed_start_tears_down_witness :
  step (startSession 5 mounted) (DevicesDenied 0%nat)
  = Some (startSession_catch 0
            {| pc := AwaitDevices; currentOutText := ""; currentInText := "";
               sessionPromise := NotCreated; opened := false |}
            NotCreated (startSession 5 mounted))
  /\ isConnecting (component (startSession 5 mounted)) = true
  /\ isConnecting (component (startSession_catch 0
            {| pc := AwaitDevices; currentOutText := ""; currentInText := "";
               sessionPromise := NotCreated; opened := false |}
            NotCreated (startSession 5 mounted))) = false.
Proof.
  assert (H : step (startSession 5 mounted) (DevicesDenied 0%nat)
              = Some (startSession_catch 0
                  {| pc := AwaitDevices; currentOutText := ""; currentInText := "";
                     sessionPromise := NotCreated; opened := false |}
                  NotCreated (startSession 5 mounted))) by reflexivity.
  split; [exact H|]. split; [reflexivity|].
  exact (proj1 (proj2 (failed_start_tears_down _ _ _ (or_introl H)))).
Defined.

(** X16: a new session discards the transcript. Whatever was displayed
    and whatever updates were still queued, the first render after
    [startSession] shows the connecting notice alone. *)
Theorem new_session_discards_transcript now w table shown :
  transcriptions (render table shown (component (startSession now w)))
  = [connecting_entry now].
Proof.
  unfold startSession, render, enqueue.
  cbn [component perform set_transcriptions set_flags updateQueue transcriptions].
  rewrite fold_left_app. reflexivity.
Qed.

(** ** Media submitted before the connection resolves *)

Lemma pending_media_wait a captures :
  forall w att waiting,
    attempts w !! a = Some att ->
    pc att = AwaitSession ->
    sessionPromise att = Pending waiting ->
    opened att = true ->
    context_closed (audioCtxIn a) (effects (component w)) = false ->
    exists w' att',
      run w (map (capture_event a) captures) = Some w'
      /\ component w' = component w
      /\ attempts w' !! a = Some att'
      /\ pc att' = AwaitSession
      /\ sessionPromise att' = Pending (waiting ++ map capture_media captures)
      /\ opened att' = true.
Proof.
  induction captures as [|k captures IH]; intros w att waiting Hl Hpc Hpr Hop Hcl.
  - exists w, att. cbn [map run]. rewrite app_nil_r. auto 10.
  - assert (Hlt : (a < length (attempts w))%nat) by (eapply lookup_lt_Some; eauto).
    set (att1 := set_control (pc att) (Pending (waiting ++ [capture_media k]))
                             (opened att) att).
    set (w1 := {| component := component w; attempts := <[a := att1]> (attempts w) |}).
    assert (Hstep : step w (capture_event a k) = Some w1).
    { destruct k; cbn [capture_event step]; rewrite Hl; cbn;
        rewrite ?Hop, ?Hcl; cbn;
        unfold onaudioprocess, onloadend, then_send; rewrite Hpr; reflexivity. }
    destruct (IH w1 att1 (waiting ++ [capture_media k]))
      as (w' & att' & Hrun & Hc & Hl' & Hpc' & Hpr' & Hop');
      try reflexivity; try assumption.
    { apply list_lookup_insert_eq. exact Hlt. }
    exists w', att'. cbn [map run]. rewrite Hstep. cbn.
    rewrite Hrun, <- app_assoc in *. cbn [app] in Hpr'. auto 10.
Qed.

(** X13: media captured before the connection resolves is kept and sent
    in order. While the connection promise of an open channel is pending,
    audio blocks and video frames handed to it are held back, nothing
    else changes; when the promise resolves, every one of them is sent on
    the channel, in the order captured, after those that already waited:
    audio as 16-bit PCM tagged [audio/pcm;rate=16000], video frames
    unchanged tagged [image/jpeg]. *)
Theorem pending_media_is_sent_in_order a captures w att waiting :
  attempts w !! a = Some att ->
  pc att = AwaitSession ->
  sessionPromise att = Pending waiting ->
  opened att = true ->
  context_closed (audioCtxIn a) (effects (component w)) = false ->
  exists w1 w2,
    run w (map (capture_event a) captures) = Some w1
    /\ effects (component w1) = effects (component w)
    /\ step w1 (ConnectResolved a) = Some w2
    /\ effects (component w2)
       = effects (component w)
         ++ map (SendRealtimeInput a) (waiting ++ map capture_media captures).
Proof.
  intros Hl Hpc Hpr Hop Hcl.
  destruct (pending_media_wait a captures w att waiting Hl Hpc Hpr Hop Hcl)
    as (w1 & att1 & Hrun & Hc & Hl1 & Hpc1 & Hpr1 & Hop1).
  exists w1. eexists. split; [exact Hrun|]. split; [now rewrite Hc|].
  unfold step. rewrite Hl1. cbn. rewrite Hpc1, Hpr1, Hop1.
  split; [reflexivity|]. unfold startSession_resume. cbn [component].
  destruct (perform_all a (waiting ++ map capture_media captures)
              (set_sessionRef (Some a) (component w1))) as [He _].
  cbn zeta in He. rewrite He, Hc. reflexivity.
Qed.

Lemma pending_media_is_sent_in_order_witness :
  attempts connecting_world !! 0%nat = Some connecting_attempt
  /\ context_closed (audioCtxIn 0) (effects (component connecting_world)) = false
  /\ exists w1 w2,
       run connecting_world
           (map (capture_event 0) [VideoImage "AAAA"; AudioBlock [Finite (1 # 4)]])
       = Some w1
       /\ step w1 (ConnectResolved 0%nat) = Some w2
       /\ effects (component w2)
          = effects (component connecting_world)
            ++ map (SendRealtimeInput 0)
                   ([pcmBlob [Finite (1 # 2)]]
                    ++ map capture_media
                         [VideoImage "AAAA"; AudioBlock [Finite (1 # 4)]]).
Proof.
  assert (H1 : attempts connecting_world !! 0%nat = Some connecting_attempt)
    by reflexivity.
  assert (H2 : context_closed (audioCtxIn 0) (effects (component connecting_world))
               = false) by reflexivity.
  split; [exact H1|]. split; [exact H2|].
  destruct (pending_media_is_sent_in_order 0
              [VideoImage "AAAA"; AudioBlock [Finite (1 # 4)]]
              connecting_world connecting_attempt [pcmBlob [Finite (1 # 2)]]
              H1 eq_refl eq_refl eq_refl H2) as (w1 & w2 & Hr & _ & Hs & He).
  exists w1, w2. split; [exact Hr|]. split; [exact Hs|exact He].
Defined.

(** ** The cursor across the session *)

Lemma playback_perform e c :
  start_times [e] = [] -> playback (perform e c) = playback c.
Proof.
  intros H. unfold playback, perform. cbn [nextStartTimeRef effects].
  now rewrite start_times_app, H, app_nil_r.
Qed.

Lemma teardown_starts_nothing l :
  forallb is_teardown_effect l = true -> start_times l = [].
Proof.
  induction l as [|e l IH]; [reflexivity|]. cbn [forallb]. intros H.
  apply andb_prop in H as [He Hl].
  change (e :: l) with ([e] ++ l). rewrite start_times_app, (IH Hl).
  destruct e; try discriminate; reflexivity.
Qed.

Lemma playback_stopSession c : playback (stopSession c) = playback c.
Proof.
  unfold playback. destruct (stopSession_refs c) as (_ & _ & _ & _ & Hn & _).
  destruct (stopSession_added c) as (added & He & Ha).
  now rewrite Hn, He, start_times_app, (teardown_starts_nothing _ Ha), app_nil_r.
Qed.

Lemma playback_send_all a (l : list Media) c :
  playback (fold_left (fun c m => perform (SendRealtimeInput a m) c) l c) = playback c.
Proof.
  revert c. induction l as [|m l IH]; intros c; [reflexivity|].
  cbn [fold_left]. rewrite IH. now apply playback_perform.
Qed.

Lemma playback_then_send a media att w :
  playback (component (then_send a media att w)) = playback (component w).
Proof.
  unfold then_send. destruct (sessionPromise att); try reflexivity.
  cbn [component]. now apply playback_perform.
Qed.

Lemma step_playback w e w' :
  step w e = Some w' ->
  is_message e = false ->
  playback (component w') = playback (component w).
Proof.
  intros Hs Hm.
  destruct e; try discriminate; unfold step in Hs;
    try (destruct (attempts w !! a) as [att|] eqn:Hl; [|discriminate]; cbn in Hs).
  - injection Hs as <-. unfold click_start.
    destruct (_ && _); [|reflexivity].
    unfold startSession. cbn [component]. now rewrite playback_perform.
  - injection Hs as <-. unfold click_stop.
    destruct (isActive _); [|reflexivity]. apply playback_stopSession.
  - destruct (pc att); try discriminate. injection Hs as <-.
    unfold startSession_connect. cbn [component]. now rewrite playback_perform.
  - destruct (pc att); try discriminate. injection Hs as <-.
    unfold startSession_catch. cbn [component].
    rewrite playback_perform, playback_stopSession, playback_perform; reflexivity.
  - destruct (sessionPromise att); try discriminate.
    destruct (opened att); try discriminate. injection Hs as <-.
    unfold onopen. cbn [component]. now rewrite playback_perform.
  - destruct (pc att); try discriminate.
    destruct (sessionPromise att); try discriminate.
    destruct (opened att); try discriminate. injection Hs as <-.
    unfold startSession_resume. cbn [component]. now rewrite playback_send_all.
  - destruct (pc att); try discriminate.
    destruct (sessionPromise att); try discriminate. injection Hs as <-.
    unfold startSession_catch. cbn [component].
    rewrite playback_perform, playback_stopSession, playback_perform; reflexivity.
  - destruct (connect_issued att); try discriminate. injection Hs as <-.
    apply playback_stopSession.
  - destruct (connect_issued att); try discriminate. injection Hs as <-.
    cbn [component]. rewrite playback_stopSession. now apply playback_perform.
  - destruct (_ && _); try discriminate. injection Hs as <-.
    apply playback_then_send.
  - destruct (opened att); try discriminate. injection Hs as <-.
    apply playback_then_send.
  - injection Hs as <-. reflexivity.
Qed.

(** X9: only inbound messages move the cursor or start a source. Every
    other event (a click on start or stop, the grant or refusal of the
    devices, the opening, closing or failure of the channel, the
    resolution or rejection of the connection promise, captured media, a
    render) leaves the cursor and the list of started sources as they
    were; in particular the cursor of one session is still there when the
    next one starts. *)
Theorem only_messages_move_the_cursor w e w' :
  step w e = Some w' ->
  is_message e = false ->
  nextStartTimeRef (component w') = nextStartTimeRef (component w)
  /\ start_times (effects (component w')) = start_times (effects (component w)).
Proof.
  intros Hs Hm. pose proof (step_playback _ _ _ Hs Hm) as H.
  unfold playback in H. injection H as H1 H2. split; assumption.
Qed.

Lemma only_messages_move_the_cursor_witness :
  step (default mounted (run mounted (connected ++
         [Message 0%nat (tick_at 4) (audio_payload "AAA")]))) ClickStop
  = Some (stopped (default mounted (run mounted (connected ++
         [Message 0%nat (tick_at 4) (audio_payload "AAA")]))))
  /\ is_message ClickStop = false
  /\ nextStartTimeRef (component (stopped (default mounted (run mounted (connected ++
         [Message 0%nat (tick_at 4) (audio_payload "AAA")])))))
     = (4 + duration one_frame)%Q.
Proof.
  assert (H1 : step (default mounted (run mounted (connected ++
                 [Message 0%nat (tick_at 4) (audio_payload "AAA")]))) ClickStop
               = Some (stopped (default mounted (run mounted (connected ++
                 [Message 0%nat (tick_at 4) (audio_payload "AAA")])))))
    by (vm_compute; reflexivity).
  assert (H2 : is_message ClickStop = false) by reflexivity.
  split; [exact H1|]. split; [exact H2|].
  exact (proj1 (only_messages_move_the_cursor _ _ _ H1 H2)).
Defined.

Lemma step_keeps_cursor_sound w e w' :
  step w e = Some w' ->
  (0 <= nextStartTimeRef (component w))%Q ->
  Forall (fun s => (0 <= s)%Q) (start_times (effects (component w))) ->
  (0 <= nextStartTimeRef (component w'))%Q
  /\ Forall (fun s => (0 <= s)%Q) (start_times (effects (component w'))).
Proof.
  intros Hs Hc Hst. destruct (is_message e) eqn:Hm.
  - destruct e; try discriminate. unfold step in Hs.
    destruct (attempts w !! a) as [att|] eqn:Hl; [|discriminate]. cbn in Hs.
    destruct (opened att); [|discriminate].
    pose proof (onmessage_playback a t message att (component w)) as [Hcur Heff].
    cbn zeta in Hcur, Heff.
    assert (Hgoal : (0 <= cursor_after (nextStartTimeRef (component w)) t message)%Q
                    /\ Forall (fun s => (0 <= s)%Q)
                         (start_times (sources_of a (nextStartTimeRef (component w))
                                                  t message))).
    { pose proof (Math_max_ge_l (nextStartTimeRef (component w)) (currentTime t)).
      unfold cursor_after, sources_of.
      destruct (audio_outcome message) as [| | |b] eqn:E;
        try destruct (is_interruption message);
        (split; [try lra|cbn; repeat constructor; try lra]).
      pose proof (audio_duration_pos message b E). lra. }
    destruct Hgoal as [G1 G2].
    destruct (onmessage a t message (att, component w)) as [[att' c']|e' [att' c']];
      cbn [final_state snd] in Hcur, Heff; injection Hs as <-; cbn [component].
    + rewrite Hcur, Heff, start_times_app. split; [exact G1|].
      apply Forall_app. split; assumption.
    + change (nextStartTimeRef (perform ?x c')) with (nextStartTimeRef c').
      change (effects (perform ?x c')) with (effects c' ++ [x]).
      rewrite Hcur, Heff, !start_times_app. cbn [start_times flat_map app].
      rewrite app_nil_r. split; [exact G1|]. apply Forall_app. split; assumption.
  - pose proof (step_playback _ _ _ Hs Hm) as H.
    unfold playback in H. injection H as -> ->. split; assumption.
Qed.

Lemma run_keeps_cursor_sound trace :
  forall w w',
    run w trace = Some w' ->
    (0 <= nextStartTimeRef (component w))%Q ->
    Forall (fun s => (0 <= s)%Q) (start_times (effects (component w))) ->
    (0 <= nextStartTimeRef (component w'))%Q
    /\ Forall (fun s => (0 <= s)%Q) (start_times (effects (component w'))).
Proof.
  induction trace as [|e trace IH]; intros w w' Hr Hc Hs.
  - injection Hr as <-. split; assumption.
  - cbn [run] in Hr. destruct (step w e) as [w1|] eqn:E; [|discriminate]. cbn in Hr.
    destruct (step_keeps_cursor_sound _ _ _ E Hc Hs) as [Hc1 Hs1].
    exact (IH _ _ Hr Hc1 Hs1).
Qed.

(** X12: from the mount on, along every sequence of events, whatever the
    clock readings and the messages, the cursor is never negative and no
    source is ever started at a negative time. *)
Theorem cursor_is_never_negative trace w :
  run mounted trace = Some w ->
  (0 <= nextStartTimeRef (component w))%Q
  /\ Forall (fun s => (0 <= s)%Q) (start_times (effects (component w))).
Proof.
  intros Hr. apply (run_keeps_cursor_sound trace mounted w Hr).
  - cbn. lra.
  - constructor.
Qed.

Lemma cursor_is_never_negative_witness :
  run mounted (connected ++
     [Message 0%nat (tick_at (-3)) (audio_payload "AAA");
      Message 0%nat (tick_at 2) interruption_signal])
  = Some (default mounted (run mounted (connected ++
     [Message 0%nat (tick_at (-3)) (audio_payload "AAA");
      Message 0%nat (tick_at 2) interruption_signal])))
  /\ (0 <= nextStartTimeRef (component (default mounted (run mounted (connected ++
     [Message 0%nat (tick_at (-3)) (audio_payload "AAA");
      Message 0%nat (tick_at 2) interruption_signal])))))%Q.
Proof.
  assert (H : run mounted (connected ++
     [Message 0%nat (tick_at (-3)) (audio_payload "AAA");
      Message 0%nat (tick_at 2) interruption_signal])
  = Some (default mounted (run mounted (connected ++
     [Message 0%nat (tick_at (-3)) (audio_payload "AAA");
      Message 0%nat (tick_at 2) interruption_signal]))))
    by (vm_compute; reflexivity).
  split; [exact H|]. exact (proj1 (cursor_is_never_negative _ _ H)).
Defined.

(** ** The transcript under message delivery *)

Lemma appending_updater shown q f :
  appending shown q -> appending shown (q ++ [Updater f]).
Proof.
  destruct q as [|[v|g] rest]; cbn; [auto| |].
  - intros [Hv Hr]. split; [exact Hv|]. rewrite forallb_app, Hr. reflexivity.
  - intros Hr. rewrite forallb_app, Hr. reflexivity.
Qed.

Lemma setTranscriptions_appending t att f c :
  let c' := setTranscriptions t att f c in
  transcriptions c' = transcriptions c
  /\ (appending (transcriptions c) (updateQueue c) ->
      appending (transcriptions c) (updateQueue c'))
  /\ length (updateQueue c') = S (length (updateQueue c)).
Proof.
  cbn zeta. unfold setTranscriptions, queue_is_empty, enqueue.
  destruct (idle t); cbn [andb]; [destruct (updateQueue c) as [|u q] eqn:E|];
    cbn [set_transcriptions transcriptions updateQueue]; rewrite ?E;
    (split; [reflexivity|split; [|rewrite length_app; cbn; lia]]).
  - intros _. cbn. split; [|reflexivity]. destruct f; cbn; eauto.
  - apply appending_updater.
  - apply appending_updater.
Qed.

Lemma flush_turn_appending a t m att c :
  let c' := snd (flush_turn a t m (att, c)) in
  transcriptions c' = transcriptions c
  /\ (appending (transcriptions c) (updateQueue c) ->
      appending (transcriptions c) (updateQueue c'))
  /\ (length (updateQueue c')
      <= length (updateQueue c) + (if is_turn_complete m then 2 else 0))%nat.
Proof.
  cbn zeta. unfold flush_turn, is_turn_complete.
  destruct (truthy_opt_bool _); cbn [snd]; [|split; [reflexivity|split; [auto|lia]]].
  destruct (truthy_string (currentInText att)).
  - destruct (setTranscriptions_appending t att (UserEntry a) c) as (T1 & A1 & L1).
    cbn zeta in T1, A1, L1.
    destruct (truthy_string (currentOutText att)).
    + destruct (setTranscriptions_appending t att (AssistantEntry a)
                  (setTranscriptions t att (UserEntry a) c)) as (T2 & A2 & L2).
      cbn zeta in T2, A2, L2. rewrite T1 in *.
      split; [exact T2|]. split; [auto|lia].
    + split; [exact T1|]. split; [exact A1|lia].
  - destruct (truthy_string (currentOutText att)).
    + destruct (setTranscriptions_appending t att (AssistantEntry a) c) as (T1 & A1 & L1).
      cbn zeta in T1, A1, L1. split; [exact T1|]. split; [exact A1|lia].
    + split; [reflexivity|]. split; [auto|lia].
Qed.

Lemma onmessage_transcript a t m att c :
  let c' := snd (final_state (onmessage a t m (att, c))) in
  transcriptions c' = transcriptions (snd (flush_turn a t m (append_fragment m att, c)))
  /\ updateQueue c' = updateQueue (snd (flush_turn a t m (append_fragment m att, c))).
Proof.
  cbn zeta. unfold onmessage. cbn [fst snd].
  destruct (flush_turn a t m (append_fragment m att, c)) as [att1 c1]. cbn [snd].
  destruct (audioData_of m) as [[d|]|e]; cbn [final_state snd];
    try (unfold interrupt; destruct (truthy_opt_bool _); split; reflexivity);
    try (split; reflexivity).
  destruct (truthy_string d);
    [|unfold interrupt; destruct (truthy_opt_bool _); split; reflexivity].
  unfold schedule.
  destruct (bytes ← decode d; decodeAudioData bytes 24000);
    cbn [final_state snd]; unfold interrupt;
    try destruct (truthy_opt_bool _); split; reflexivity.
Qed.

Lemma deliver_appending a evs :
  forall att c shown n,
    transcriptions c = shown ->
    appending shown (updateQueue c) ->
    (length (updateQueue c) <= n)%nat ->
    let c' := snd (deliver a (att, c) evs) in
    transcriptions c' = shown
    /\ appending shown (updateQueue c')
    /\ (length (updateQueue c') <= n + 2 * turns evs)%nat.
Proof.
  induction evs as [|ev evs IH]; intros att c shown n Ht Ha Hn; cbn zeta.
  - cbn. split; [exact Ht|]. split; [exact Ha|lia].
  - rewrite deliver_cons.
    destruct (onmessage_transcript a (fst ev) (snd ev) att c) as [T Q].
    destruct (flush_turn_appending a (fst ev) (snd ev) (append_fragment (snd ev) att) c)
      as (T1 & A1 & L1).
    cbn zeta in T, Q, T1, A1, L1.
    destruct (final_state (onmessage a (fst ev) (snd ev) (att, c))) as [att1 c1].
    cbn [snd] in T, Q. rewrite <- T in T1. rewrite <- Q in A1, L1. rewrite Ht in *.
    destruct (IH att1 c1 shown
                (n + (if is_turn_complete (snd ev) then 2 else 0))%nat T1 (A1 Ha))
      as (T2 & A2 & L2); [lia|].
    cbn zeta in T2, A2, L2. split; [exact T2|]. split; [exact A2|].
    cbn [turns fold_right]. fold (turns evs).
    destruct (is_turn_complete (snd ev)); lia.
Qed.

Lemma render_updaters table now q :
  forallb is_updater q = true ->
  forall state, exists added,
    fold_left (apply_update table now) q state = state ++ added
    /\ (length added <= length q)%nat.
Proof.
  induction q as [|u q IH]; intros Hq state.
  - exists []. cbn. now rewrite app_nil_r.
  - cbn [forallb] in Hq. apply andb_prop in Hq as [Hu Hq].
    destruct u as [v|f]; [discriminate|]. cbn [fold_left apply_update].
    destruct (table !! closure_attempt f) as [att|].
    + destruct (IH Hq (call_closure att now f state)) as (added & E & L).
      destruct f; cbn [call_closure] in *; rewrite E, <- app_assoc;
        eexists; (split; [reflexivity|]); rewrite length_app; cbn; lia.
    + destruct (IH Hq state) as (added & E & L).
      exists added. split; [exact E|]. cbn. lia.
Qed.

Lemma render_appending table now shown q :
  appending shown q ->
  exists added,
    fold_left (apply_update table now) q shown = shown ++ added
    /\ (length added <= length q)%nat.
Proof.
  destruct q as [|[v|f] rest]; cbn [appending].
  - intros _. exists []. cbn. now rewrite app_nil_r.
  - intros [[entry ->] Hr]. cbn [fold_left apply_update].
    destruct (render_updaters table now rest Hr (shown ++ [entry])) as (added & E & L).
    exists ([entry] ++ added). rewrite E, <- app_assoc. split; [reflexivity|].
    rewrite length_app. cbn. lia.
  - intros Hr. apply (render_updaters table now _ Hr).
Qed.

(** X17: messages only add to the transcript. Starting with nothing
    queued, handling any sequence of messages leaves the displayed
    transcript as it is until the next render, and that render keeps every
    entry displayed before, in place, and adds at most two entries for
    each turn-complete signal among the messages. *)
Theorem messages_only_append_to_the_transcript a evs att c table now :
  updateQueue c = [] ->
  let c' := snd (deliver a (att, c) evs) in
  transcriptions c' = transcriptions c
  /\ exists added,
       transcriptions (render table now c') = transcriptions c ++ added
       /\ (length added <= 2 * turns evs)%nat.
Proof.
  intros Hq. cbn zeta.
  destruct (deliver_appending a evs att c (transcriptions c) 0%nat eq_refl)
    as (T & A & L).
  { rewrite Hq. reflexivity. }
  { rewrite Hq. cbn. lia. }
  cbn zeta in T, A, L. split; [exact T|].
  destruct (render_appending table now _ _ A) as (added & E & La).
  exists added. unfold render.
  cbn [set_transcriptions transcriptions]. rewrite T. split; [exact E|lia].
Qed.

Lemma messages_only_append_to_the_transcript_witness :
  updateQueue (snd ready) = []
  /\ transcriptions (snd (deliver 0 ready
        [(tick_at 0, output_fragment "Hello"); (tick_at 0, turn_complete_signal)]))
     = transcriptions (snd ready).
Proof.
  assert (H : updateQueue (snd ready) = []) by reflexivity.
  split; [exact H|].
  exact (proj1 (messages_only_append_to_the_transcript 0
                  [(tick_at 0, output_fragment "Hello"); (tick_at 0, turn_complete_signal)]
                  (fst ready) (snd ready) [] 0 H)).
Defined.

(** ** Decoding text that is not base64 *)

Lemma strip_padding_keeps c cs :
  In c cs -> Ascii.eqb c pad_char = false -> In c (strip_padding cs).
Proof.
  intros Hin Hc. induction cs as [|x l IH]; [destruct Hin|].
  destruct l as [|y [|z l']].
  - destruct Hin as [->|[]]. cbn. rewrite Hc. now left.
  - cbn [strip_padding]. destruct Hin as [->|[->|[]]].
    + rewrite Hc. destruct (Ascii.eqb y pad_char); now left.
    + rewrite Hc. right. now left.
  - change (strip_padding (x :: y :: z :: l')) with (x :: strip_padding (y :: z :: l')).
    destruct Hin as [->|Hin]; [now left|]. right. now apply IH.
Qed.

Lemma sextets_of_foreign c cs :
  In c cs -> b64_index c = None -> sextets_of cs = None.
Proof.
  intros Hin Hc. induction cs as [|x l IH]; [destruct Hin|].
  cbn [sextets_of]. destruct Hin as [->|Hin].
  - now rewrite Hc.
  - rewrite (IH Hin). now destruct (b64_index x).
Qed.

(** X18: [decode] refuses text that is not base64. If the string holds a
    character that is neither in the base64 alphabet, nor the padding
    character, nor ASCII whitespace, [decode] throws an
    InvalidCharacterError, wherever the character stands. *)
Theorem decode_rejects_foreign_character base64 c :
  In c (list_ascii_of_string base64) ->
  is_text_safe c = false ->
  is_ascii_whitespace c = false ->
  decode base64 = Throw InvalidCharacterError.
Proof.
  intros Hin Hsafe Hws. unfold is_text_safe in Hsafe.
  destruct (b64_index c) eqn:Hidx; [discriminate|].
  unfold decode, atob.
  set (cs0 := filter (fun c => negb (is_ascii_whitespace c)) (list_ascii_of_string base64)).
  assert (H0 : In c cs0).
  { apply list_elem_of_In. unfold cs0. apply list_elem_of_filter. split.
    - now rewrite Hws.
    - now apply list_elem_of_In. }
  set (cs := if Z.of_nat (length cs0) mod 4 =? 0 then strip_padding cs0 else cs0).
  assert (H1 : In c cs).
  { unfold cs. destruct (_ =? 0); [now apply strip_padding_keeps|exact H0]. }
  destruct (Z.of_nat (length cs) mod 4 =? 1); [reflexivity|].
  now rewrite (sextets_of_foreign c cs H1 Hidx).
Qed.

Lemma decode_rejects_foreign_character_witness :
  In "-"%char (list_ascii_of_string "SG-k")
  /\ is_text_safe "-"%char = false
  /\ is_ascii_whitespace "-"%char = false
  /\ decode "SG-k" = Throw InvalidCharacterError.
Proof.
  assert (H1 : In "-"%char (list_ascii_of_string "SG-k")) by (cbn; auto).
  split; [exact H1|]. split; [reflexivity|]. split; [reflexivity|].
  exact (decode_rejects_foreign_character "SG-k" "-"%char H1 eq_refl eq_refl).
Defined.

(** ** Teardown from a callback *)

(** X19: the teardown is not tied to the channel that closed. When the
    [onclose] of any channel whose connection was issued fires, even the
    channel of an earlier session, the component is torn down as by the
    stop button: the flags go down, the handle is emptied, and the stream
    and the audio contexts the refs hold now, which may belong to a later
    session, are released. *)
Theorem close_of_any_channel_releases_current_session w a w' :
  step w (ChannelClose a) = Some w' ->
  attempts w' = attempts w
  /\ isActive (component w') = false
  /\ isConnecting (component w') = false
  /\ sessionRef (component w') = None
  /\ (forall b, streamRef (component w) = Some b ->
        In (TracksStop b) (effects (component w')))
  /\ (forall b, audioContextInRef (component w) = Some b ->
        context_closed (audioCtxIn b) (effects (component w')) = true)
  /\ (forall b, audioContextOutRef (component w) = Some b ->
        context_closed (audioCtxOut b) (effects (component w')) = true).
Proof.
  unfold step. destruct (attempts w !! a) as [att|]; [|discriminate]. cbn.
  destruct (connect_issued att); [|discriminate]. intros [= <-].
  cbn [component attempts].
  destruct (stopSession_guarantees (component w))
    as (Ha & Hc & Hs & _ & Ht & _ & Hi & Ho & _).
  auto 10.
Qed.

Lemma close_of_any_channel_releases_current_session_witness :
  step (default mounted (run mounted restart_after_early_stop)) (ChannelClose 0%nat)
  = Some (stopped (default mounted (run mounted restart_after_early_stop)))
  /\ streamRef (component (default mounted (run mounted restart_after_early_stop)))
     = Some 1%nat
  /\ In (TracksStop 1)
        (effects (component (stopped (default mounted
                                        (run mounted restart_after_early_stop))))).
Proof.
  assert (H1 : step (default mounted (run mounted restart_after_early_stop))
                    (ChannelClose 0%nat)
               = Some (stopped (default mounted (run mounted restart_after_early_stop))))
    by (vm_compute; reflexivity).
  assert (H2 : streamRef (component (default mounted
                                       (run mounted restart_after_early_stop)))
               = Some 1%nat) by (vm_compute; reflexivity).
  split; [exact H1|]. split; [exact H2|].
  destruct (close_of_any_channel_releases_current_session _ _ _ H1)
    as (_ & _ & _ & _ & Ht & _).
  exact (Ht _ H2).
Defined.

(** ** A start that succeeds *)

(** X20: from any state in which the display offers the start button, a
    click on it followed by the grant of the devices, the opening of the
    channel and the resolution of the connection promise always goes
    through, and ends with the session active and no longer connecting,
    the session handle, the stream, both audio contexts and the frame
    timer all referring to the new attempt, after exactly one device
    request, one connect and one timer. The cursor is not reset. *)
Theorem start_from_idle_activates now w :
  isActive (component w) = false ->
  isConnecting (component w) = false ->
  let a := length (attempts w) in
  exists w',
    run w [ClickStart now; DevicesGranted a; ChannelOpen a; ConnectResolved a] = Some w'
    /\ isActive (component w') = true
    /\ isConnecting (component w') = false
    /\ sessionRef (component w') = Some a
    /\ streamRef (component w') = Some a
    /\ audioContextInRef (component w') = Some a
    /\ audioContextOutRef (component w') = Some a
    /\ frameIntervalRef (component w') = Some a
    /\ effects (component w')
       = effects (component w) ++ [GetUserMedia a; Connect a; SetInterval a]
    /\ nextStartTimeRef (component w') = nextStartTimeRef (component w).
Proof.
  intros Ha Hc. cbn zeta. destruct w as [c atts]. cbn [component attempts] in *.
  set (a := length atts).
  set (att0 := {| pc := AwaitDevices; currentOutText := ""; currentInText := "";
                  sessionPromise := NotCreated; opened := false |}).
  set (att1 := {| pc := AwaitSession; currentOutText := ""; currentInText := "";
                  sessionPromise := Pending []; opened := false |}).
  set (att2 := set_control AwaitSession (Pending []) true att1).
  set (w0 := {| component := c; attempts := atts |}).
  set (w1 := startSession now w0).
  set (w2 := startSession_connect a att0 w1).
  set (w3 := onopen a att1 w2).
  set (w4 := startSession_resume a att2 [] w3).
  assert (L0 : forall x : Attempt, (atts ++ [x]) !! a = Some x).
  { intros x. apply list_lookup_middle. reflexivity. }
  assert (L1 : forall x y : Attempt, <[a := y]> (atts ++ [x]) = atts ++ [y]).
  { intros x y. unfold a.
    rewrite (insert_app_r_alt atts [x] (length atts) y) by lia.
    now rewrite Nat.sub_diag. }
  assert (A1 : attempts w1 = atts ++ [att0]) by reflexivity.
  assert (A2 : attempts w2 = atts ++ [att1]).
  { unfold w2, startSession_connect. cbn [attempts]. rewrite A1. apply L1. }
  assert (A3 : attempts w3 = atts ++ [att2]).
  { unfold w3, onopen. cbn [attempts]. rewrite A2. apply L1. }
  assert (S1 : step w0 (ClickStart now) = Some w1).
  { cbn [step]. unfold click_start. cbn [component w0]. now rewrite Ha, Hc. }
  assert (S2 : step w1 (DevicesGranted a) = Some w2).
  { cbn [step]. rewrite A1, L0. reflexivity. }
  assert (S3 : step w2 (ChannelOpen a) = Some w3).
  { cbn [step]. rewrite A2, L0. reflexivity. }
  assert (S4 : step w3 (ConnectResolved a) = Some w4).
  { cbn [step]. rewrite A3, L0. reflexivity. }
  exists w4. split.
  - cbn [run]. rewrite S1. cbn [mbind option_bind]. rewrite S2. cbn [mbind option_bind].
    rewrite S3. cbn [mbind option_bind]. rewrite S4. reflexivity.
  - unfold w4, w3, w2, w1, w0, startSession_resume, onopen, startSession_connect,
      startSession. cbn. rewrite <- !app_assoc. cbn. auto 12.
Qed.

Lemma start_from_idle_activates_witness :
  isActive (component (stopped ready_world)) = false
  /\ isConnecting (component (stopped ready_world)) = false
  /\ exists w',
       run (stopped ready_world)
           [ClickStart 9; DevicesGranted 1%nat; ChannelOpen 1%nat; ConnectResolved 1%nat]
       = Some w'
       /\ sessionRef (component w') = Some 1%nat.
Proof.
  assert (H1 : isActive (component (stopped ready_world)) = false) by reflexivity.
  assert (H2 : isConnecting (component (stopped ready_world)) = false) by reflexivity.
  split; [exact H1|]. split; [exact H2|].
  destruct (start_from_idle_activates 9 (stopped ready_world) H1 H2)
    as (w' & Hr & _ & _ & Hs & _).
  exists w'. split; [exact Hr|exact Hs].
Defined.
